(** * Save to Grow: vault and time-locked reward accounting

    A shallow embedding of the accounting logic of the save-to-grow
    application:

    - [retryRPC], the wrapper around ledger reads
      (components/DepositSection.tsx);
    - the tier selection of the collectible token ([updateNftMetadata],
      [gifData]);
    - the lock route handler [POST], in its current form
      (app/app/api/lock/route.ts: 10 % rate, forced exit) and in the earlier
      one kept in the repository (app/api/lock/route.ts: 5 % rate, no forced
      exit);
    - the actions [withdraw], [handleLock], [fetchLocks] and [deleteWallet]
      of the deposit component, with the React state they read ([balance],
      [activeLocks], [lockDuration]), and [shortAddress];
    - the vault program called by the component, which is not among the
      sources and is modelled from its description.

    Conventions.  Lamports and millisecond timestamps are integers ([Z]).
    A number stored in the registry (an amount of SOL, a number of hours, a
    reward) is the rational it denotes ([Q]); the route's create action
    computes on these rationals.  Where the code compares or floors the
    result of an arithmetic operation on such numbers (the reward in
    lamports, the amount the component lets its user lock or withdraw), the
    operation is the binary64 one of [SpecFloat], applied to the doubles
    nearest to the stored numbers.  [await] is sequential composition: one
    request runs to completion before the next one starts.  The registry
    store answers every call.  What the outside decides is an argument:
    the clock, whether the admin key and the endpoint are usable, whether a
    read of the ledger answers, the fee, whether a transaction lands and
    whether its confirmation is seen ([Env], [Rpc], [Fetch]). *)

From Stdlib Require Import ZArith NArith QArith Qround Qabs List String Ascii Bool.
From Stdlib Require Import Lia Lqa SpecFloat Permutation Sorted.
Import ListNotations.

Open Scope Z_scope.

(** ** Numbers *)

(** [LAMPORTS_PER_SOL] of @solana/web3.js. *)
Definition LAMPORTS_PER_SOL : Q := 1000000000.

(** [a > b] and [a >= b] where the code compares a stored number with a
    constant: the comparison of the rationals they denote. *)
Definition Qgtb (a b : Q) : bool := negb (Qle_bool a b).
Definition Qgeb (a b : Q) : bool := Qle_bool b a.

(** Truncation towards zero, the integer part kept by a [Date]. *)
Definition Qtrunc (x : Q) : Z :=
  if Qle_bool 0 x then Qfloor x else Qceiling x.

(** [new Date(tv)]: the time value is clipped to +-8.64e15 ms and truncated
    to an integer; outside that range the date is invalid ([None]) and
    [toISOString] throws a RangeError. *)
Definition Date_of (tv : Q) : option Z :=
  if Qle_bool (Qabs tv) 8640000000000000 then Some (Qtrunc tv) else None.

(** [String.prototype.includes]. *)
Definition includes (s sub : string) : bool :=
  match String.index 0 sub s with
  | Some _ => true
  | None => false
  end.

(** ** Binary64 *)

(** A JavaScript [number] as a binary64 value: [prec = 53], [emax = 1024]. *)
Definition double : Type := spec_float.

Definition js_add : double -> double -> double := SFadd 53 1024.
Definition js_sub : double -> double -> double := SFsub 53 1024.
Definition js_mul : double -> double -> double := SFmul 53 1024.
Definition js_div : double -> double -> double := SFdiv 53 1024.

(** [a <= b] and [a > b]; every comparison with NaN is false. *)
Definition js_le (a b : double) : bool := SFleb a b.
Definition js_gt (a b : double) : bool := SFltb b a.

Definition isNaN (x : double) : bool :=
  match x with
  | S754_nan => true
  | _ => false
  end.

Definition is_finite (x : double) : bool :=
  match x with
  | S754_zero _ | S754_finite _ _ _ => true
  | _ => false
  end.

Definition js_zero : double := S754_zero false.

(** The double nearest to an integer (ties to even): [Number] of the decimal
    rendering of a lamport balance, and the number a JSON integer parses
    to. *)
Definition Number_of_Z (z : Z) : double := binary_normalize 53 1024 z 0 false.

(** The double nearest to a rational (ties to even): what a decimal literal
    or a JSON number denoting [q] parses to.  The quotient of the two
    integers is rounded once. *)
Definition Number_of_Q (q : Q) : double :=
  match Qnum q with
  | Z0 => S754_zero false
  | Zpos n =>
      SFdiv 53 1024 (S754_finite false n 0) (S754_finite false (Qden q) 0)
  | Zneg n =>
      SFdiv 53 1024 (S754_finite true n 0) (S754_finite false (Qden q) 0)
  end.

(** The rational a finite double denotes (0 for the others, which have
    none). *)
Definition Q_of_double (x : double) : Q :=
  match x with
  | S754_finite s m e =>
      let v :=
        match e with
        | Z0 => inject_Z (Zpos m)
        | Zpos p => inject_Z (Zpos m * 2 ^ Zpos p)
        | Zneg p => Qmake (Zpos m) (2 ^ p)
        end in
      if s then Qopp v else v
  | _ => 0%Q
  end.

(** [Math.floor] of a double, as the integer it is; [None] for NaN and the
    infinities, which [Math.floor] returns as they are. *)
Definition Math_floor (x : double) : option Z :=
  if is_finite x then Some (Qfloor (Q_of_double x)) else None.

(** [LAMPORTS_PER_SOL] as the number it is in the code. *)
Definition LAMPORTS_PER_SOL64 : double := Number_of_Q LAMPORTS_PER_SOL.

(** [new BN(n)] of bn.js for the result of [Math.floor]: the constructor
    asserts that the magnitude is below 2^53 and throws otherwise, as it
    does for NaN and the infinities. *)
Definition BN_of (n : option Z) : option Z :=
  match n with
  | Some z => if Z.abs z <? 2 ^ 53 then Some z else None
  | None => None
  end.

(** ** Keys *)

(** [new PublicKey(value)] of @solana/web3.js for a string: the string is
    decoded as base58 ([bs58.decode] throws on a character outside the
    alphabet) and the result must be 32 bytes long.  The decoded length is
    the number of leading '1' characters plus the number of bytes of the
    number the digits denote. *)
Definition base58_alphabet : string :=
  "123456789ABCDEFGHJKLMNPQRSTUVWXYZabcdefghijkmnopqrstuvwxyz".

Fixpoint index_of (c : ascii) (s : string) (i : N) : option N :=
  match s with
  | EmptyString => None
  | String c' s' => if Ascii.eqb c c' then Some i else index_of c s' (N.succ i)
  end.

Fixpoint base58_value (s : string) (acc : N) : option N :=
  match s with
  | EmptyString => Some acc
  | String c s' =>
      match index_of c base58_alphabet 0 with
      | None => None
      | Some d => base58_value s' (acc * 58 + d)%N
      end
  end.

Fixpoint leading_ones (s : string) : N :=
  match s with
  | String "1"%char s' => N.succ (leading_ones s')
  | _ => 0%N
  end.

Definition byte_length (n : N) : N := ((N.size n + 7) / 8)%N.

Definition bs58_decode_length (s : string) : option N :=
  match base58_value s 0 with
  | None => None
  | Some v => Some (leading_ones s + byte_length v)%N
  end.

(** [new PublicKey(value)] does not throw. *)
Definition PublicKey_parses (value : string) : bool :=
  match bs58_decode_length value with
  | Some 32%N => true
  | _ => false
  end.

(** ** The resilience wrapper *)

(** A thrown value is kept as its [JSON.stringify] rendering, which is all
    that [retryRPC] looks at. *)
Definition JsError : Type := string.

Inductive Settled (T : Type) : Type :=
| Fulfilled (v : T)
| Rejected (error : JsError).
Arguments Fulfilled {T} v.
Arguments Rejected {T} error.

Section RetryRPC.
(** [T] is the type of the value read; [Net] is the state of the ledger
    network, which a read may observe and advance. *)
Context {T Net : Type}.

Definition Read : Type := Net -> Settled T * Net.

(** The effects of one wrapped read: the delays slept, in order, and the
    network state left behind. *)
Record Trace : Type := mkTrace { slept : list Z; net_after : Net }.

Definition push_sleep (delay : Z) (r : Settled T * Trace) : Settled T * Trace :=
  (fst r, mkTrace (delay :: slept (snd r)) (net_after (snd r))).

(** [retryRPC(fn, retries, delay)]. The guard
    [retries > 0 && JSON.stringify(error).includes("429")] is the match on
    [retries] followed by the test on the error. *)
Fixpoint retryRPC (fn : Read) (retries : nat) (delay : Z) (net : Net)
  : Settled T * Trace :=
  match fn net with
  | (Fulfilled v, net') => (Fulfilled v, mkTrace [] net')
  | (Rejected error, net') =>
      match retries with
      | S retries' =>
          if includes error "429"
          then push_sleep delay (retryRPC fn retries' (delay * 2) net')
          else (Rejected error, mkTrace [] net')
      | O => (Rejected error, mkTrace [] net')
      end
  end.

(** The call with its default parameters, [retries = 3, delay = 1000], the
    only way the component calls it. *)
Definition retryRPC_default (fn : Read) : Net -> Settled T * Trace :=
  retryRPC fn 3 1000.

(** The [k]-th call of a read in a row (from 0), the first one made on
    [net]: how it settles and the network state it leaves. *)
Fixpoint nth_call (fn : Read) (net : Net) (k : nat) : Settled T * Net :=
  match k with
  | O => fn net
  | S k' => nth_call fn (snd (fn net)) k'
  end.

End RetryRPC.

(** [is_rate_limited r]: the read was rejected with an error whose rendering
    contains "429". *)
Definition is_rate_limited {T : Type} (r : Settled T) : bool :=
  match r with
  | Fulfilled _ => false
  | Rejected error => includes error "429"
  end.

(** ** The collectible token's stage *)

Inductive Tier : Type := Sprout | Growing | Legendary.

(** [METADATA_URIS]: default / growing / legendary. *)
Definition METADATA_URIS (t : Tier) : string :=
  match t with
  | Sprout => "https://coffee-patient-mackerel-446.mypinata.cloud/ipfs/bafkreih33uv4usrp266elvpnkalj5eqte2s34ufdffxtgba3x2ybmfjd5y"
  | Growing => "https://coffee-patient-mackerel-446.mypinata.cloud/ipfs/bafkreiequjkraokootfvtevagfam35b5eittmhrbdszk75lcwn7rykcgmq"
  | Legendary => "https://coffee-patient-mackerel-446.mypinata.cloud/ipfs/bafkreihk67v2decygyuevd2l2uk2b24yxkxyno54wgzc7wasp72yuikjxy"
  end.

(** The stage chosen in [updateNftMetadata]:
    [let targetUri = default; if (currentBal >= 5) legendary;
     else if (currentBal > 0) growing]. *)
Definition targetTier (currentBal : Q) : Tier :=
  if Qgeb currentBal 5 then Legendary
  else if Qgtb currentBal 0 then Growing
  else Sprout.

Definition targetUri (currentBal : Q) : string :=
  METADATA_URIS (targetTier currentBal).

(** [gifData]: the label shown for the vault balance in SOL. *)
Definition gifData (solVaultBalance : Q) : string :=
  if Qgeb solVaultBalance 5 then "Legendary"
  else if Qgtb solVaultBalance 0 then "Growing"
  else "Sprout".

Definition tier_label (t : Tier) : string :=
  match t with
  | Sprout => "Sprout"
  | Growing => "Growing"
  | Legendary => "Legendary"
  end.

(** ** The lock registry and the reward treasury *)

Definition UserId : Type := string.
Definition PublicKey : Type := string.

(** The [status] column: ['active'] or ['claimed']. *)
Inductive LockStatus : Type := active | claimed.

(** A row of [box_locks]. *)
Record LockRecord : Type := mkLock {
  id : nat;
  user_id : UserId;
  amount : Q;
  duration_hours : Q;
  reward_amount : Q;
  ends_at : Z;
  status : LockStatus
}.

(** A [SystemProgram.transfer] out of the admin wallet. *)
Record Transfer : Type := mkTransfer {
  toPubkey : PublicKey;
  lamports : Z
}.

(** A row of [transaction_history] as the earlier route writes it. *)
Record RewardRecord : Type := mkRewardRecord {
  history_user_id : UserId;
  history_amount : Q;
  history_gas : Q
}.

(** What the route handler works on: the [box_locks] table with the id
    the store gives to the next row, the balance of the admin wallet in
    lamports, the transfers handed to the network so far (oldest first,
    confirmed or not) and the reward rows of [transaction_history]. *)
Record World : Type := mkWorld {
  box_locks : list LockRecord;
  next_id : nat;
  adminBalance : Z;
  submitted : list Transfer;
  transaction_history : list RewardRecord
}.

Definition is_active (l : LockRecord) : bool :=
  match status l with
  | active => true
  | claimed => false
  end.

(** [from('box_locks').insert([row])]. *)
Definition insert (row : nat -> LockRecord) (w : World) : World :=
  mkWorld (box_locks w ++ [row (next_id w)]) (S (next_id w))
          (adminBalance w) (submitted w) (transaction_history w).

(** [.select('*').eq('id', lockId).eq('user_id', userId)]. *)
Definition select_lock (lockId : nat) (userId : UserId) (w : World)
  : list LockRecord :=
  filter (fun l => Nat.eqb (id l) lockId && String.eqb (user_id l) userId)
         (box_locks w).

(** [.single()]: exactly one row, an error otherwise. *)
Definition single {A : Type} (rows : list A) : option A :=
  match rows with
  | [row] => Some row
  | _ => None
  end.

Definition set_status (st : LockStatus) (l : LockRecord) : LockRecord :=
  mkLock (id l) (user_id l) (amount l) (duration_hours l) (reward_amount l)
         (ends_at l) st.

(** [.update({ status }).eq('id', lockId)]. *)
Definition update_status (st : LockStatus) (lockId : nat) (w : World) : World :=
  mkWorld (map (fun l => if Nat.eqb (id l) lockId then set_status st l else l)
               (box_locks w))
          (next_id w) (adminBalance w) (submitted w) (transaction_history w).

Definition insert_history (r : RewardRecord) (w : World) : World :=
  mkWorld (box_locks w) (next_id w) (adminBalance w) (submitted w)
          (transaction_history w ++ [r]).

(** ** The lock route handler *)

(** What the outside decides during one request:
    - [clock]: the value of [new Date()];
    - [admin_ready]: [new Connection(NETWORK_URL)] and
      [Keypair.fromSecretKey(ADMIN_SECRET)] do not throw (the endpoint and
      the admin secret of the deployment are well formed);
    - [balance_read]: [connection.getBalance] answers;
    - [fee]: the fee the ledger charges the admin wallet, the only signer of
      the transfer, when the transaction lands;
    - [lands]: the ledger accepts the transaction handed to it;
    - [confirms]: [sendAndConfirmTransaction] sees the confirmation and
      returns; otherwise it throws, whether the transaction landed or
      not. *)
Record Env : Type := mkEnv {
  clock : Z;
  admin_ready : bool;
  balance_read : bool;
  fee : Z;
  lands : bool;
  confirms : bool
}.

(** [sendAndConfirmTransaction] of one transfer from the admin wallet, the
    only signer, which therefore pays the fee.  The transfer is handed to
    the network, which simulates it first: one that the wallet cannot pay is
    refused there and costs nothing.  It lands when the ledger accepts it
    and the wallet holds the lamports and the fee; the wallet is then
    debited by both.  The call returns ([true]) when the transfer landed and
    its confirmation was seen, and throws ([false]) otherwise, also when the
    transfer landed. *)
Definition sendAndConfirmTransaction (env : Env) (t : Transfer) (w : World)
  : bool * World :=
  if lands env && (lamports t + fee env <=? adminBalance w)
  then (confirms env,
        mkWorld (box_locks w) (next_id w)
                (adminBalance w - lamports t - fee env)
                (submitted w ++ [t]) (transaction_history w))
  else (false,
        mkWorld (box_locks w) (next_id w) (adminBalance w)
                (submitted w ++ [t]) (transaction_history w)).

(** The request body, by its [action]. *)
Inductive Request : Type :=
| Create (userId : UserId) (amount durationHours : Q)
| Unlock (userId : UserId) (lockId : nat) (userAddress : PublicKey) (force : bool)
| OtherAction.

(** The errors thrown inside the handler.  The kinds are named as in the
    design; the handler tells them apart by message only:
    - [NotFound]: the select returned an error or no row;
    - [AlreadySettled]: [lockData.status !== 'active'];
    - [StillLocked]: before [ends_at] without [force];
    - [AdminUnavailable]: whatever [new Connection] or
      [Keypair.fromSecretKey] throws;
    - [InvalidPublicKey]: whatever [new PublicKey(userAddress)] throws;
    - [BalanceUnread]: whatever [connection.getBalance] throws;
    - [TreasuryInsufficient]: [adminBalance < rewardLamports];
    - [InvalidTimeValue]: the RangeError of [toISOString] on an invalid
      date;
    - [TransferFailed]: whatever [sendAndConfirmTransaction] throws. *)
Inductive Failure : Type :=
| NotFound
| AlreadySettled
| StillLocked
| AdminUnavailable
| InvalidPublicKey
| BalanceUnread
| TreasuryInsufficient
| InvalidTimeValue
| TransferFailed.

Inductive Response : Type :=
| Created                      (* 200 { success: true } *)
| Unlocked (reward : Q)        (* 200 { success: true, reward } *)
| Error500 (error : Failure)   (* 500 { error: message } *)
| Error400.                    (* 400 { error: "Invalid action" } *)

(** [res.ok] *)
Definition ok (res : Response) : bool :=
  match res with
  | Created | Unlocked _ => true
  | Error500 _ | Error400 => false
  end.

(** [finalRewardAmount * LAMPORTS_PER_SOL]: the binary64 product of the
    stored reward, read as a number, and 10^9. *)
Definition reward_product (finalRewardAmount : Q) : double :=
  js_mul (Number_of_Q finalRewardAmount) LAMPORTS_PER_SOL64.

(** [Math.floor(finalRewardAmount * LAMPORTS_PER_SOL)]; [None] when the
    product is not finite. *)
Definition rewardLamports (finalRewardAmount : Q) : option Z :=
  Math_floor (reward_product finalRewardAmount).

(** The number [getBalance] returns for a wallet holding [lamports]. *)
Definition balance_number (lamports : Z) : Q := Q_of_double (Number_of_Z lamports).

(** [adminBalance < rewardLamports], [adminBalance] being the number
    [getBalance] returned for the lamports the wallet holds and
    [rewardLamports] an integer: two finite doubles compare as the numbers
    they denote. *)
Definition treasury_short (adminBalance rewardLamports : Z) : bool :=
  Qgtb (inject_Z rewardLamports) (balance_number adminBalance).

(** [POST] of app/app/api/lock/route.ts.  A stored reward is compared with
    0 as the number it is; its product with 10^9 is the binary64 one.  The
    result of the status update is not looked at by the handler. *)
Definition POST (env : Env) (body : Request) (w : World) : Response * World :=
  match body with
  | Create userId amount durationHours =>
      match Date_of (inject_Z (clock env) + durationHours * 60 * 60 * 1000)%Q with
      | None => (Error500 InvalidTimeValue, w)
      | Some endsAt =>
          let apy : Q := 0.10%Q in
          let reward : Q := (amount * apy * (durationHours / 8760))%Q in
          (Created,
           insert (fun i => mkLock i userId amount durationHours reward endsAt active) w)
      end
  | Unlock userId lockId userAddress force =>
      match single (select_lock lockId userId w) with
      | None => (Error500 NotFound, w)
      | Some lockData =>
          match status lockData with
          | claimed => (Error500 AlreadySettled, w)
          | active =>
              let isTimeOver := ends_at lockData <=? clock env in
              if negb isTimeOver && negb force then (Error500 StillLocked, w)
              else
                let finalRewardAmount : Q :=
                  if negb isTimeOver && force then 0%Q else reward_amount lockData in
                if Qgtb finalRewardAmount 0 then
                  if negb (admin_ready env) then (Error500 AdminUnavailable, w)
                  else if negb (PublicKey_parses userAddress)
                  then (Error500 InvalidPublicKey, w)
                  else if negb (balance_read env) then (Error500 BalanceUnread, w)
                  else
                    match rewardLamports finalRewardAmount with
                    | None => (Error500 TreasuryInsufficient, w)
                    | Some lamports =>
                        if treasury_short (adminBalance w) lamports
                        then (Error500 TreasuryInsufficient, w)
                        else
                          let (returned, w1) :=
                            sendAndConfirmTransaction
                              env (mkTransfer userAddress lamports) w in
                          if returned
                          then (Unlocked finalRewardAmount,
                                update_status claimed lockId w1)
                          else (Error500 TransferFailed, w1)
                    end
                else
                  (Unlocked finalRewardAmount, update_status claimed lockId w)
          end
      end
  | OtherAction => (Error400, w)
  end.

(** The earlier handler, app/api/lock/route.ts: a rate of 5 %, no forced
    exit ([force] is not read); the admin key, the recipient key and the
    admin balance are obtained whatever the reward; the transfer is guarded
    by [rewardLamports > 0]; and a reward row is written to the history. *)
Module Legacy.

Definition POST (env : Env) (body : Request) (w : World) : Response * World :=
  match body with
  | Create userId amount durationHours =>
      match Date_of (inject_Z (clock env) + durationHours * 60 * 60 * 1000)%Q with
      | None => (Error500 InvalidTimeValue, w)
      | Some endsAt =>
          let apy : Q := 0.05%Q in
          let reward : Q := (amount * apy * (durationHours / 8760))%Q in
          (Created,
           insert (fun i => mkLock i userId amount durationHours reward endsAt active) w)
      end
  | Unlock userId lockId userAddress _ =>
      match single (select_lock lockId userId w) with
      | None => (Error500 NotFound, w)
      | Some lockData =>
          match status lockData with
          | claimed => (Error500 AlreadySettled, w)
          | active =>
              if clock env <? ends_at lockData then (Error500 StillLocked, w)
              else if negb (admin_ready env) then (Error500 AdminUnavailable, w)
              else if negb (PublicKey_parses userAddress)
              then (Error500 InvalidPublicKey, w)
              else if negb (balance_read env) then (Error500 BalanceUnread, w)
              else
                let settled :=
                  (Unlocked (reward_amount lockData),
                   insert_history
                     (mkRewardRecord userId (reward_amount lockData) 0%Q)
                     (update_status claimed lockId w)) in
                match rewardLamports (reward_amount lockData) with
                | None =>
                    (* an infinite product: above every balance when
                       positive, below 0 when negative *)
                    if Qgtb (reward_amount lockData) 0
                    then (Error500 TreasuryInsufficient, w)
                    else settled
                | Some lamports =>
                    if treasury_short (adminBalance w) lamports
                    then (Error500 TreasuryInsufficient, w)
                    else if 0 <? lamports
                    then
                      let (returned, w1) :=
                        sendAndConfirmTransaction
                          env (mkTransfer userAddress lamports) w in
                      if returned
                      then
                        (Unlocked (reward_amount lockData),
                         insert_history
                           (mkRewardRecord userId (reward_amount lockData) 0%Q)
                           (update_status claimed lockId w1))
                      else (Error500 TransferFailed, w1)
                    else settled
                end
          end
      end
  | OtherAction => (Error400, w)
  end.

End Legacy.

(** ** The vault ledger program *)

Inductive LedgerError : Type :=
| AlreadyInitialized
| Uninitialized
| InsufficientFunds
| InvalidAmount.

(** The vault accounts by owner key; [None] is an account that was never
    initialized.  Balances are in lamports. *)
Definition Vaults : Type := PublicKey -> option Z.

Definition set_vault (owner : PublicKey) (b : Z) (v : Vaults) : Vaults :=
  fun k => if String.eqb k owner then Some b else v k.

(** Modelled from the spec: the on-chain program behind
    [program.methods.deposit] (the Anchor program and its idl.json) is not
    among the sources.  Section 4.2: [deposit] requires [amount > 0], fails
    with Uninitialized if the account does not exist, and adds [amount] to
    the vault balance. *)
Definition program_deposit (owner : PublicKey) (amount : Z) (v : Vaults)
  : LedgerError + Vaults :=
  match v owner with
  | None => inl Uninitialized
  | Some b =>
      if 0 <? amount then inr (set_vault owner (b + amount) v)
      else inl InvalidAmount
  end.

(** Modelled from the spec: the program's [withdraw] is not among the
    sources.  Section 4.2: requires [amount <= balance], fails with
    InsufficientFunds otherwise; the program knows nothing about locks. *)
Definition program_withdraw (owner : PublicKey) (amount : Z) (v : Vaults)
  : LedgerError + Vaults :=
  match v owner with
  | None => inl Uninitialized
  | Some b =>
      if amount <=? b then inr (set_vault owner (b - amount) v)
      else inl InsufficientFunds
  end.

(** ** The deposit component *)

(** The two stores the component talks to. *)
Record System : Type := mkSystem {
  vaults : Vaults;
  registry : World
}.

(** The React state read by the actions below: the session's user id, the
    embedded wallet's key, the vault balance in lamports as last fetched, the
    active locks as last fetched and the selected lock duration in hours. *)
Record Client : Type := mkClient {
  session : option UserId;
  myWallet : option PublicKey;
  balance : Z;
  activeLocks : list LockRecord;
  lockDuration : Q
}.

Definition setBalance (b : Z) (c : Client) : Client :=
  mkClient (session c) (myWallet c) b (activeLocks c) (lockDuration c).

Definition setActiveLocks (rows : list LockRecord) (c : Client) : Client :=
  mkClient (session c) (myWallet c) (balance c) rows (lockDuration c).

(** [.order('ends_at', { ascending: true })]. *)
Fixpoint insert_by_ends_at (l : LockRecord) (rows : list LockRecord)
  : list LockRecord :=
  match rows with
  | [] => [l]
  | r :: rows' =>
      if ends_at l <? ends_at r then l :: r :: rows'
      else r :: insert_by_ends_at l rows'
  end.

Definition order_by_ends_at (rows : list LockRecord) : list LockRecord :=
  fold_right insert_by_ends_at [] rows.

(** [.select('*').eq('user_id', userId).eq('status', 'active')]. *)
Definition active_locks_of (userId : UserId) (rows : list LockRecord)
  : list LockRecord :=
  filter (fun l => String.eqb (user_id l) userId && is_active l) rows.

(** [fetchLocks(userId)]. *)
Definition fetchLocks (userId : UserId) (s : System) (c : Client) : Client :=
  setActiveLocks
    (order_by_ends_at (active_locks_of userId (box_locks (registry s)))) c.

(** ** The accounting invariant *)

(** The sum of the amounts of [userId]'s active locks. *)
Definition locked_sum (userId : UserId) (s : System) : Q :=
  fold_left (fun sum lock => (sum + amount lock)%Q)
            (active_locks_of userId (box_locks (registry s))) 0%Q.

(** The vault balance of [owner] in lamports, 0 when there is no vault. *)
Definition vault_balance (owner : PublicKey) (s : System) : Z :=
  match vaults s owner with
  | Some b => b
  | None => 0
  end.

(** The balance, in SOL, covers the active locks. *)
Definition covered (userId : UserId) (owner : PublicKey) (s : System) : Prop :=
  (locked_sum userId s <= inject_Z (vault_balance owner s) / LAMPORTS_PER_SOL)%Q.


(** Every lock was made for a non-negative amount. *)
Definition amounts_nonneg (s : System) : Prop :=
  Forall (fun l => (0 <= amount l)%Q) (box_locks (registry s)).

(** The component's state is what a fetch would give. *)
Definition in_sync (userId : UserId) (owner : PublicKey) (s : System) (c : Client)
  : Prop :=
  session c = Some userId /\ myWallet c = Some owner /\
  balance c = vault_balance owner s /\
  activeLocks c = order_by_ends_at (active_locks_of userId (box_locks (registry s))).

(** [parseFloat] of an amount field.  The fields are [<input type="number">]:
    their value is the empty string or a decimal number whose nearest double
    is finite; [None] is a field that holds no such number, for which
    [parseFloat] gives NaN. *)
Definition parseFloat (field : option Q) : double :=
  match field with
  | None => S754_nan
  | Some q => if is_finite (Number_of_Q q) then Number_of_Q q else S754_nan
  end.

(** The computed values: [Number(balance) / LAMPORTS_PER_SOL], the [reduce]
    over the locks last fetched, from 0, and their difference, each
    operation a binary64 one. *)
Definition solVaultBalance (c : Client) : double :=
  js_div (Number_of_Z (balance c)) LAMPORTS_PER_SOL64.

Definition totalLockedAmount (c : Client) : double :=
  fold_left (fun sum lock => js_add sum (Number_of_Q (amount lock)))
            (activeLocks c) js_zero.

Definition availableToWithdraw (c : Client) : double :=
  js_sub (solVaultBalance c) (totalLockedAmount c).

(** The messages shown by [alert]. *)
Inductive Alert : Type :=
| BadAmount                      (* withdraw: amount invalid *)
| ExceedsWithdrawable            (* withdraw: above the withdrawable amount *)
| WithdrawError                  (* withdraw: anything thrown inside the try *)
| EnterAmount                    (* handleLock: amount missing or not positive *)
| InsufficientAvailableBalance   (* handleLock: available balance too low *)
| LockFailed                     (* handleLock: response not ok *)
| FetchFailed                    (* handleLock: the message of what fetch threw *)
| LockCreated.

(** How an action ends: it returns at once without a message, it shows an
    alert, or (withdraw) it completes silently. *)
Inductive Outcome : Type :=
| Returned
| Alerted (a : Alert)
| Completed.

(** What becomes of the request [fetch] sends to the route: it never
    reaches the route and [fetch] rejects; the route serves it but the
    answer does not arrive and [fetch] rejects; or [fetch] resolves with the
    route's response. *)
Inductive Fetch : Type :=
| Unreachable
| Lost
| Answered.

(** [handleLock]; [lockAmountInput] is the amount field and [confirmed] the
    answer to the [confirm] dialog.  The request carries [val] as JSON, which
    the route parses to the same number.  [fetchLocks], which the handler
    starts after the alert without awaiting it, is not part of the handler:
    the component's state is returned as it was. *)
Definition handleLock (net : Fetch) (env : Env) (lockAmountInput : option Q)
                      (confirmed : bool) (s : System) (c : Client)
  : Outcome * System * Client :=
  match session c with
  | None => (Returned, s, c)
  | Some userId =>
      let val := parseFloat lockAmountInput in
      if isNaN val || js_le val js_zero then (Alerted EnterAmount, s, c)
      else if js_gt val (availableToWithdraw c)
      then (Alerted InsufficientAvailableBalance, s, c)
      else if negb confirmed then (Returned, s, c)
      else
        match net with
        | Unreachable => (Alerted FetchFailed, s, c)
        | Lost =>
            let (_, w') :=
              POST env (Create userId (Q_of_double val) (lockDuration c))
                   (registry s) in
            (Alerted FetchFailed, mkSystem (vaults s) w', c)
        | Answered =>
            let (res, w') :=
              POST env (Create userId (Q_of_double val) (lockDuration c))
                   (registry s) in
            let s' := mkSystem (vaults s) w' in
            if negb (ok res) then (Alerted LockFailed, s', c)
            else (Alerted LockCreated, s', c)
        end
  end.

(** What becomes of a transaction handed to the ledger by [rpc()]: it does
    not land and the call throws; it lands but the call throws all the same
    (its confirmation is not seen in time); or it lands and the call
    returns. *)
Inductive Sent : Type :=
| Dropped
| Unconfirmed
| Confirmed.

(** What the network does during one [withdraw]: whether the read of the
    wallet balance before the call answers, what becomes of the
    transaction, whether the read after the call answers, and whether the
    vault account is read by [fetchVault]. *)
Record Rpc : Type := mkRpc {
  pre_read : bool;
  sent : Sent;
  post_read : bool;
  vault_read : bool
}.

(** [withdraw], with the check against the locked amount.  Everything
    thrown inside the [try] ends in the same alert: a failed read of the
    wallet balance, [new BN] on a number of 2^53 or more, the rejection of
    the transaction by the program or the network, a confirmation not seen.
    At the end [fetchVault] sets the balance to the one read, or to 0 when
    the read fails. *)
Definition withdraw (rpc : Rpc) (amountInput : option Q) (s : System) (c : Client)
  : Outcome * System * Client :=
  match myWallet c with
  | None => (Returned, s, c)
  | Some owner =>
      let val := parseFloat amountInput in
      if isNaN val || js_le val js_zero then (Alerted BadAmount, s, c)
      else if js_gt val (availableToWithdraw c)
      then (Alerted ExceedsWithdrawable, s, c)
      else if negb (pre_read rpc) then (Alerted WithdrawError, s, c)
      else
        match BN_of (Math_floor (js_mul val LAMPORTS_PER_SOL64)) with
        | None => (Alerted WithdrawError, s, c)
        | Some lamportsOut =>
            match sent rpc, program_withdraw owner lamportsOut (vaults s) with
            | Dropped, _ => (Alerted WithdrawError, s, c)
            | _, inl _ => (Alerted WithdrawError, s, c)
            | Unconfirmed, inr v' =>
                (Alerted WithdrawError, mkSystem v' (registry s), c)
            | Confirmed, inr v' =>
                let s' := mkSystem v' (registry s) in
                if negb (post_read rpc) then (Alerted WithdrawError, s', c)
                else
                  (Completed, s',
                   setBalance (if vault_read rpc then vault_balance owner s' else 0) c)
            end
        end
  end.

(** ** Closing the account *)

Inductive DeleteOutcome : Type :=
| DeleteIgnored     (* no session or no wallet *)
| DeleteDeclined    (* the confirm dialog was declined *)
| Deleted.          (* the rows are gone and the state is reset *)

(** [deleteWallet]: the user's rows of [transaction_history] and [box_locks]
    are deleted and the component's state is reset.  ([transfer_history] and
    [user_wallets], cleared by the same function, are not part of [World].)
    No call is made to the vault program. *)
Definition deleteWallet (confirmed : bool) (s : System) (c : Client)
  : DeleteOutcome * System * Client :=
  match session c, myWallet c with
  | Some userId, Some _ =>
      if negb confirmed then (DeleteDeclined, s, c)
      else
        let w := registry s in
        let w' :=
          mkWorld
            (filter (fun l => negb (String.eqb (user_id l) userId)) (box_locks w))
            (next_id w) (adminBalance w) (submitted w)
            (filter (fun r => negb (String.eqb (history_user_id r) userId))
                    (transaction_history w)) in
        (Deleted, mkSystem (vaults s) w',
         mkClient (session c) None 0 [] (lockDuration c))
  | _, _ => (DeleteIgnored, s, c)
  end.

(** ** The address shown *)

(** [shortAddress]: the empty string without a wallet, otherwise
    [addr.slice(0, 8)], three dots and [addr.slice(-8)].  The address is the
    base58 rendering of the key, one byte per character. *)
Definition shortAddress (myWallet : option PublicKey) : string :=
  match myWallet with
  | None => EmptyString
  | Some addr =>
      String.append (substring 0 8 addr)
        (String.append "..." (substring (String.length addr - 8) 8 addr))
  end.

(** The store gives every row an id of its own. *)
Definition ids_unique (w : World) : Prop :=
  NoDup (map id (box_locks w)) /\
  Forall (fun l => (id l < next_id w)%nat) (box_locks w).

(** ** Definitions used to state the properties *)

(** The delays of [n] successive retries that start at [delay]. *)
Fixpoint backoff (n : nat) (delay : Z) : list Z :=
  match n with
  | O => []
  | S n' => delay :: backoff n' (delay * 2)
  end.

(** Requests served one after the other, each in its own circumstances. *)
Fixpoint serve (requests : list (Env * Request)) (w : World) : World :=
  match requests with
  | [] => w
  | (env, body) :: rest => serve rest (snd (POST env body w))
  end.

(** The lock [lock] is the row [lockId] of [userId]. *)
Definition lock_of (w : World) (userId : UserId) (lockId : nat) (lock : LockRecord)
  : Prop :=
  In lock (box_locks w) /\ id lock = lockId /\ user_id lock = userId.

(** The sum of the amounts of some rows, as [reduce] computes it. *)
Definition sum_amounts (rows : list LockRecord) : Q :=
  fold_left (fun sum lock => (sum + amount lock)%Q) rows 0%Q.

(** Two rows that differ in their status at most. *)
Definition same_terms (l l' : LockRecord) : Prop :=
  id l' = id l /\ user_id l' = user_id l /\ amount l' = amount l /\
  duration_hours l' = duration_hours l /\ reward_amount l' = reward_amount l /\
  ends_at l' = ends_at l.

(** The time value of a lock's end is a valid date. *)
Definition valid_end (now : Z) (durationHours : Q) : Prop :=
  (Qabs (inject_Z now + durationHours * 60 * 60 * 1000) <= 8640000000000000)%Q.

(** ** More definitions used to state properties *)

(** The stages in their order. *)
Definition tier_rank (t : Tier) : nat :=
  match t with
  | Sprout => 0
  | Growing => 1
  | Legendary => 2
  end.

(** The rows are in ascending order of [ends_at]. *)
Definition ascending_ends (rows : list LockRecord) : Prop :=
  Sorted (fun l l' => ends_at l <= ends_at l') rows.


(** The sum of some delays. *)
Definition total_delay (delays : list Z) : Z := fold_right Z.add 0 delays.

(** The request is a release sent in the name of [u]. *)
Definition unlock_by (u : UserId) (body : Request) : bool :=
  match body with
  | Unlock userId _ _ _ => String.eqb userId u
  | _ => false
  end.

(** No request of the list is a release sent in the name of [u]. *)
Definition no_unlock_by (u : UserId) (requests : list (Env * Request)) : bool :=
  forallb (fun r => negb (unlock_by u (snd r))) requests.

(** [JSON.stringify] of an [Error] object, whatever its message: the own
    properties of an [Error] ([message], [stack]) are not enumerable, so the
    rendering is that of an empty object. *)
Definition JSON_stringify_Error (message : string) : JsError := "{}"%string.

(** A read that rejects every time with [new Error(message)]; the network
    state counts the calls made. *)
Definition always_Error (message : string) : @Read Z nat :=
  fun calls => (Rejected (JSON_stringify_Error message), S calls).

(** ** Sample states *)

(** A request at time [t] in good conditions: the admin key is usable, the
    balance read answers, the fee is 5000 lamports, the transaction lands
    and is confirmed. *)
Definition at_time (t : Z) : Env := mkEnv t true true 5000 true true.


Definition alice : UserId := "alice"%string.
Definition bob : UserId := "bob"%string.

(** A string that is no key: 'l' is not in the base58 alphabet. *)
Definition alice_key : PublicKey := "AliceWalletPublicKey"%string.

(** A well-formed address (32 bytes in base58). *)
Definition alice_wallet : PublicKey :=
  "3x9az88Dkbxa6tkKByxqEn7jBTJCJCD4dVvou49L24ET"%string.

(** An empty registry next to an admin wallet holding [treasury] lamports. *)
Definition empty_world (treasury : Z) : World := mkWorld [] 0 treasury [] [].

(** 1000 SOL locked for 24 hours at time 0: the row the handler stores. *)
Definition day_lock : LockRecord :=
  mkLock 0 alice 1000 24 (240000 # 876000) 86400000 active.

Definition day_world (treasury : Z) : World :=
  mkWorld [day_lock] 1 treasury [] [].

(** 0.001 SOL locked for 5 minutes at time 0: the reward is below one
    lamport. *)
Definition dust_lock : LockRecord :=
  mkLock 0 alice 0.001 (5 # 60) (50 # 52560000000) 300000 active.

Definition dust_world (treasury : Z) : World :=
  mkWorld [dust_lock] 1 treasury [] [].

(** The number a JSON or decimal value [q] is read as. *)
Definition Number_value (q : Q) : Q := Q_of_double (Number_of_Q q).

(** A matured lock of 36.792 SOL for 5 minutes whose stored reward is the
    double nearest to 0.000035, which is what the binary64 operations of
    the create action give for it; and the row the create action stores for
    8.541 SOL over 5 minutes, whose reward is 0.000008125. *)
Definition rounded_up_lock : LockRecord :=
  mkLock 0 alice 36.792 (5 # 60) (Number_value 0.000035) 300000 active.

Definition rounded_down_lock : LockRecord :=
  mkLock 0 alice 8.541 (5 # 60) (8.541 * 0.10 * ((5 # 60) / 8760)) 300000 active.

(** The component of [alice], whose wallet is [alice_wallet], showing what a
    fetch of the stores [s] gives, with 1 hour selected. *)
Definition synced (s : System) : Client :=
  mkClient (Some alice) (Some alice_wallet) (vault_balance alice_wallet s)
           (order_by_ends_at (active_locks_of alice (box_locks (registry s)))) 1.

(** A vault of [lamports] for [alice_wallet] next to a registry in which
    [alice] locked the amounts [amounts], one after the other at time 0 for
    one hour each, through the route. *)
Definition locked_system (lamports : Z) (amounts : list Q) : System :=
  mkSystem (set_vault alice_wallet lamports (fun _ => None))
           (fold_left
              (fun w a => snd (POST (at_time 0) (Create alice (Number_value a) 1) w))
              amounts (empty_world 0)).

(** A vault of 2 SOL, nothing locked. *)
Definition two_sol_system : System := locked_system 2000000000 [].

(** The network answering every call of a withdraw. *)
Definition all_answered : Rpc := mkRpc true Confirmed true true.

(** Two users' locks side by side: alice's day lock, a lock of bob's, and a
    claimed lock of alice's. *)
Definition bob_lock : LockRecord :=
  mkLock 1 bob 2 12 (240 # 876000) 43200000 active.

Definition old_lock : LockRecord :=
  mkLock 2 alice 3 1 (30 # 876000) 3600000 claimed.

Definition shared_world : World :=
  mkWorld [day_lock; bob_lock; old_lock] 3 1000000000 [] [].

Definition shared_system : System :=
  mkSystem (set_vault alice_key 2000000000000 (fun _ => None)) shared_world.

Definition shared_client : Client :=
  mkClient (Some alice) (Some alice_key) 2000000000000 [day_lock] 1.

(** * Properties *)

(** ** Comparisons *)

Lemma Qgtb_true : forall a b : Q, Qgtb a b = true <-> (b < a)%Q.
Proof.
  intros a b. unfold Qgtb. rewrite negb_true_iff.
  split; intro H.
  - apply Qnot_le_lt. intro Hle. apply Qle_bool_iff in Hle. congruence.
  - destruct (Qle_bool a b) eqn:E; trivial.
    apply Qle_bool_iff in E. exfalso. apply (Qlt_not_le _ _ H E).
Qed.

Lemma Qgtb_false : forall a b : Q, Qgtb a b = false <-> (a <= b)%Q.
Proof.
  intros a b. unfold Qgtb. rewrite negb_false_iff. apply Qle_bool_iff.
Qed.

Lemma Qgeb_true : forall a b : Q, Qgeb a b = true <-> (b <= a)%Q.
Proof. intros a b. unfold Qgeb. apply Qle_bool_iff. Qed.

Lemma Qgeb_false : forall a b : Q, Qgeb a b = false <-> (a < b)%Q.
Proof.
  intros a b. unfold Qgeb. split; intro H.
  - apply Qnot_le_lt. intro Hle. apply Qle_bool_iff in Hle. congruence.
  - destruct (Qle_bool b a) eqn:E; trivial.
    apply Qle_bool_iff in E. exfalso. apply (Qlt_not_le _ _ H E).
Qed.

(** ** The resilience wrapper *)

Section RetryFacts.
Context {T Net : Type}.
Variable fn : @Read T Net.

(** One unfolding of the wrapper. *)
Lemma retryRPC_unfold :
  forall (retries : nat) (delay : Z) (net : Net),
    retryRPC fn retries delay net =
    match fn net with
    | (Fulfilled v, net') => (Fulfilled v, mkTrace [] net')
    | (Rejected error, net') =>
        match retries with
        | S retries' =>
            if includes error "429"
            then push_sleep delay (retryRPC fn retries' (delay * 2) net')
            else (Rejected error, mkTrace [] net')
        | O => (Rejected error, mkTrace [] net')
        end
    end.
Proof. intros retries delay net. destruct retries; reflexivity. Qed.

(** The first call settles the matter whenever it is not a rate-limit
    failure. *)
Lemma retryRPC_first_call :
  forall (retries : nat) (delay : Z) (net : Net),
    is_rate_limited (fst (fn net)) = false ->
    retryRPC fn retries delay net = (fst (fn net), mkTrace [] (snd (fn net))).
Proof.
  intros retries delay net Hr. rewrite retryRPC_unfold.
  destruct (fn net) as [[v|e] net']; simpl in *; [reflexivity|].
  rewrite Hr. destruct retries; reflexivity.
Qed.

(** The wrapper for any bound and any first delay: the first [n] calls are
    rate limited, and the call after them either is the last one allowed or
    settles otherwise. *)
Lemma retryRPC_general :
  forall (retries n : nat) (delay : Z) (net : Net),
    (n <= retries)%nat ->
    (forall k, (k < n)%nat -> is_rate_limited (fst (nth_call fn net k)) = true) ->
    n = retries \/ is_rate_limited (fst (nth_call fn net n)) = false ->
    retryRPC fn retries delay net =
    (fst (nth_call fn net n),
     mkTrace (backoff n delay) (snd (nth_call fn net n))).
Proof.
  induction retries as [|r IH]; intros n delay net Hn Hlim Hstop.
  - assert (n = 0)%nat by lia. subst n. simpl nth_call.
    rewrite retryRPC_unfold. destruct (fn net) as [[v|e] net']; reflexivity.
  - destruct n as [|n'].
    + destruct Hstop as [Hstop|Hstop]; [discriminate|].
      simpl nth_call in *. apply retryRPC_first_call. exact Hstop.
    + pose proof (Hlim 0%nat ltac:(lia)) as H0. simpl nth_call in *.
      rewrite retryRPC_unfold.
      destruct (fn net) as [[v|e] net'] eqn:Efn; simpl in H0; [discriminate|].
      rewrite H0. simpl snd in *.
      rewrite (IH n' (delay * 2) net').
      * reflexivity.
      * lia.
      * intros k Hk. specialize (Hlim (S k) ltac:(lia)).
        simpl nth_call in Hlim. rewrite Efn in Hlim. exact Hlim.
      * destruct Hstop as [Hstop|Hstop]; [left; lia|right; exact Hstop].
Qed.
End RetryFacts.

(** C9. A read that the network refuses for rate limiting (HTTP 429)
    rejects with an [Error] object that carries the 429 in its message;
    the rendering the wrapper tests is that of an empty object, whatever
    the message, and does not contain "429".  Wrapped with the default
    parameters, such a read is called once, nothing is slept, and the
    rejection goes to the caller at once: the rate-limit failure is not
    retried. *)
Theorem retryRPC_Error_not_retried :
  forall message : string,
    includes (JSON_stringify_Error message) "429" = false /\
    retryRPC_default (always_Error message) 0%nat =
    (Rejected (JSON_stringify_Error message), mkTrace [] 1%nat) /\
    includes "429 Too Many Requests" "429" = true /\
    retryRPC_default (always_Error "429 Too Many Requests") 0%nat =
    (Rejected "{}"%string, mkTrace [] 1%nat).
Proof.
  intro message. split; [|split; [|split]].
  - reflexivity.
  - unfold retryRPC_default. rewrite retryRPC_unfold.
    unfold always_Error. cbn [fst snd]. reflexivity.
  - reflexivity.
  - reflexivity.
Qed.
(** ** Binary64 facts *)

(** Rounding keeps the sign. *)
Lemma binary_round_aux_sign :
  forall s m e l s' m' e',
    binary_round_aux 53 1024 s m e l = S754_finite s' m' e' -> s' = s.
Proof.
  intros s m e l s' m' e'. unfold binary_round_aux.
  destruct (shr_fexp 53 1024 m e l) as [mrs1 e1].
  destruct (shr_fexp 53 1024 _ e1 loc_Exact) as [mrs2 e2].
  destruct (shr_m mrs2); try discriminate.
  destruct (e2 <=? 1024 - 53); [|discriminate].
  intro H. injection H as <- _ _. reflexivity.
Qed.

(** A finite double with a positive sign denotes a number that is not
    negative. *)
Lemma Q_of_double_positive_sign :
  forall m e, (0 <= Q_of_double (S754_finite false m e))%Q.
Proof.
  intros m e. unfold Q_of_double.
  destruct e as [|p|p]; unfold Qle; cbn [Qnum Qden inject_Z]; lia.
Qed.

(** The number a positive rational is read as has no negative sign. *)
Lemma Number_of_Q_sign :
  forall q s m e,
    (0 < q)%Q -> Number_of_Q q = S754_finite s m e -> s = false.
Proof.
  intros [n d] s m e Hq. unfold Number_of_Q. cbn [Qnum Qden].
  destruct n as [|n|n].
  - discriminate.
  - unfold SFdiv.
    destruct (SFdiv_core_binary 53 1024 (Z.pos n) 0 (Z.pos d) 0) as [[mz ez] lz].
    apply binary_round_aux_sign.
  - exfalso. unfold Qlt in Hq. cbn [Qnum Qden] in Hq. lia.
Qed.

(** The product of a positive reward and 10^9 is not negative. *)
Lemma reward_product_nonneg :
  forall reward, (0 < reward)%Q -> (0 <= Q_of_double (reward_product reward))%Q.
Proof.
  intros reward Hpos. unfold reward_product.
  pose proof (Number_of_Q_sign reward) as Hsign.
  assert (HL : LAMPORTS_PER_SOL64 = S754_finite false 8388608000000000 (-23))
    by (vm_compute; reflexivity).
  rewrite HL.
  destruct (Number_of_Q reward) as [sx|sx| |sx mx ex] eqn:E;
    try (cbn; unfold Qle; cbn; lia).
  assert (sx = false) by (apply (Hsign sx mx ex Hpos); reflexivity).
  subst sx. unfold js_mul, SFmul. cbn [xorb].
  destruct (binary_round_aux 53 1024 false (Z.pos (mx * 8388608000000000))
                             (ex + -23) loc_Exact) as [s|s| |s m e] eqn:Er;
    try (cbn; unfold Qle; cbn; lia).
  apply binary_round_aux_sign in Er. subst s.
  apply Q_of_double_positive_sign.
Qed.


(** A number that is neither NaN nor at most 0 is above 0. *)
Lemma js_positive :
  forall x : double,
    isNaN x || js_le x js_zero = false <-> js_gt x js_zero = true.
Proof.
  intros [s|s| |s m e]; unfold js_gt, js_le, js_zero, SFltb, SFleb, SFcompare, isNaN;
    cbn [orb]; try destruct s; split; intro H; try discriminate; reflexivity.
Qed.
(** ** The collectible token's stage *)

(** The label shown is the label of the stage written to the token. *)
Lemma gifData_targetTier :
  forall b : Q, gifData b = tier_label (targetTier b).
Proof.
  intro b. unfold gifData, targetTier.
  destruct (Qgeb b 5); [reflexivity|]. destruct (Qgtb b 0); reflexivity.
Qed.

(** C8. The stage is a function of the vault balance alone: a balance of 0
    selects Sprout (the default), a balance strictly between 0 and 5 selects
    Growing, a balance of 5 or more selects Legendary, in [updateNftMetadata]
    and in [gifData] alike, and equal balances select the same stage. *)
Theorem tier_by_balance :
  forall b : Q,
    ((b == 0)%Q -> targetTier b = Sprout /\ gifData b = "Sprout"%string) /\
    ((0 < b)%Q -> (b < 5)%Q ->
     targetTier b = Growing /\ gifData b = "Growing"%string) /\
    ((5 <= b)%Q -> targetTier b = Legendary /\ gifData b = "Legendary"%string) /\
    (forall b' : Q, (b == b')%Q ->
     targetTier b = targetTier b' /\ gifData b = gifData b').
Proof.
  intro b.
  assert (Hsame : forall b' : Q, (b == b')%Q -> targetTier b = targetTier b').
  { intros b' Hb. unfold targetTier, Qgeb, Qgtb.
    rewrite (Qleb_comp 5%Q 5%Q (Qeq_refl 5%Q) b b' Hb).
    rewrite (Qleb_comp b b' Hb 0%Q 0%Q (Qeq_refl 0%Q)). reflexivity. }
  repeat split.
  - unfold targetTier.
    assert (E5 : Qgeb b 5 = false) by (apply Qgeb_false; lra).
    assert (E0 : Qgtb b 0 = false) by (apply Qgtb_false; lra).
    rewrite E5, E0. reflexivity.
  - rewrite gifData_targetTier. unfold targetTier.
    assert (E5 : Qgeb b 5 = false) by (apply Qgeb_false; lra).
    assert (E0 : Qgtb b 0 = false) by (apply Qgtb_false; lra).
    rewrite E5, E0. reflexivity.
  - unfold targetTier.
    assert (E5 : Qgeb b 5 = false) by (apply Qgeb_false; lra).
    assert (E0 : Qgtb b 0 = true) by (apply Qgtb_true; lra).
    rewrite E5, E0. reflexivity.
  - rewrite gifData_targetTier. unfold targetTier.
    assert (E5 : Qgeb b 5 = false) by (apply Qgeb_false; lra).
    assert (E0 : Qgtb b 0 = true) by (apply Qgtb_true; lra).
    rewrite E5, E0. reflexivity.
  - unfold targetTier.
    assert (E5 : Qgeb b 5 = true) by (apply Qgeb_true; lra).
    rewrite E5. reflexivity.
  - rewrite gifData_targetTier. unfold targetTier.
    assert (E5 : Qgeb b 5 = true) by (apply Qgeb_true; lra).
    rewrite E5. reflexivity.
  - apply Hsame. assumption.
  - rewrite !gifData_targetTier. f_equal. apply Hsame. assumption.
Qed.

(** Balances of 0, 3 and 5 SOL, and 6/2 against 3. *)
Lemma tier_by_balance_witness :
  targetTier 0 = Sprout /\ targetTier 3 = Growing /\ targetTier 5 = Legendary /\
  targetTier (6 # 2) = targetTier 3.
Proof.
  split; [|split; [|split]].
  - apply (proj1 (tier_by_balance 0%Q)). reflexivity.
  - apply (proj1 (proj2 (tier_by_balance 3%Q))); reflexivity.
  - apply (proj1 (proj2 (proj2 (tier_by_balance 5%Q)))). discriminate.
  - apply (proj2 (proj2 (proj2 (tier_by_balance (6 # 2)))) 3%Q). reflexivity.
Defined.


(** ** The registry store *)

Lemma filter_id_absent :
  forall (p : LockRecord -> bool) (lockId : nat) (rows : list LockRecord),
    ~ In lockId (map id rows) ->
    filter (fun l => Nat.eqb (id l) lockId && p l) rows = [].
Proof.
  intros p lockId rows. induction rows as [|r rows IH]; simpl; intro Hnotin.
  - reflexivity.
  - destruct (Nat.eqb (id r) lockId) eqn:E.
    + apply Nat.eqb_eq in E. exfalso. apply Hnotin. left. exact E.
    + simpl. apply IH. intro H. apply Hnotin. right. exact H.
Qed.

Lemma filter_id_found :
  forall (rows : list LockRecord) (lock : LockRecord),
    NoDup (map id rows) ->
    In lock rows ->
    filter (fun l => Nat.eqb (id l) (id lock) &&
                     String.eqb (user_id l) (user_id lock)) rows = [lock].
Proof.
  induction rows as [|r rows IH]; simpl; intros lock Hnd Hin.
  - contradiction.
  - inversion Hnd as [|? ? Hnotin Hnd']; subst.
    destruct Hin as [->|Hin].
    + rewrite Nat.eqb_refl, String.eqb_refl. simpl. f_equal.
      apply filter_id_absent. exact Hnotin.
    + destruct (Nat.eqb (id r) (id lock)) eqn:E.
      * apply Nat.eqb_eq in E. exfalso. apply Hnotin. rewrite E.
        apply in_map. exact Hin.
      * simpl. apply IH; assumption.
Qed.

(** With ids of their own, the select by id and user finds the row. *)
Lemma select_lock_found :
  forall w userId lockId lock,
    ids_unique w ->
    lock_of w userId lockId lock ->
    select_lock lockId userId w = [lock].
Proof.
  intros w userId lockId lock [Hnd _] (Hin & Hid & Hu).
  unfold select_lock. subst lockId userId.
  apply filter_id_found; assumption.
Qed.


(** The update by id changes the status of the selected rows only. *)
Lemma select_lock_update_status :
  forall st lockId userId w,
    select_lock lockId userId (update_status st lockId w) =
    map (set_status st) (select_lock lockId userId w).
Proof.
  intros st lockId userId w. unfold select_lock, update_status. simpl.
  induction (box_locks w) as [|r rows IH]; simpl.
  - reflexivity.
  - destruct (Nat.eqb (id r) lockId) eqn:E; simpl.
    + rewrite E. simpl.
      destruct (String.eqb (user_id r) userId); simpl; rewrite IH; reflexivity.
    + rewrite E. simpl. exact IH.
Qed.

(** Handing a transfer to the network changes no row. *)
Lemma sendAndConfirmTransaction_rows :
  forall env t w,
    box_locks (snd (sendAndConfirmTransaction env t w)) = box_locks w /\
    next_id (snd (sendAndConfirmTransaction env t w)) = next_id w.
Proof.
  intros env t w. unfold sendAndConfirmTransaction.
  destruct (lands env && (lamports t + fee env <=? adminBalance w));
    split; reflexivity.
Qed.


(** ** Sample states are states of the handler *)

Lemma day_world_created :
  forall treasury,
    POST (at_time 0) (Create alice 1000 24) (empty_world treasury) = (Created, day_world treasury).
Proof. intro treasury. reflexivity. Qed.

Lemma dust_world_created :
  forall treasury,
    POST (at_time 0) (Create alice 0.001 (5 / 60)) (empty_world treasury) =
    (Created, dust_world treasury).
Proof. intro treasury. reflexivity. Qed.

Lemma ids_unique_one :
  forall lock treasury,
    id lock = 0%nat -> ids_unique (mkWorld [lock] 1 treasury [] []).
Proof.
  intros lock treasury H. split; simpl.
  - constructor; [intros []|constructor].
  - constructor; [rewrite H; lia|constructor].
Qed.

(** The select found exactly one row: a row of the table with that id and
    that user. *)
Lemma single_select_lock :
  forall lockId userId w lock,
    single (select_lock lockId userId w) = Some lock ->
    lock_of w userId lockId lock.
Proof.
  intros lockId userId w lock H.
  destruct (select_lock lockId userId w) as [|l [|]] eqn:Hsel; simpl in H;
    try discriminate.
  inversion H; subst l.
  assert (Hin : In lock (select_lock lockId userId w)) by (rewrite Hsel; left; reflexivity).
  unfold select_lock in Hin. apply filter_In in Hin. destruct Hin as (Hin & Hb).
  apply andb_true_iff in Hb. destruct Hb as (Hid & Hu).
  apply Nat.eqb_eq in Hid. apply String.eqb_eq in Hu.
  repeat split; assumption.
Qed.

(** A create request either stores one active row of the user for the
    amount asked, or fails and changes nothing. *)
Lemma POST_create_stored :
  forall env userId a d w,
    POST env (Create userId a d) w = (Error500 InvalidTimeValue, w) \/
    exists lock,
      POST env (Create userId a d) w =
      (Created, mkWorld (box_locks w ++ [lock]) (S (next_id w)) (adminBalance w)
                        (submitted w) (transaction_history w)) /\
      id lock = next_id w /\
      user_id lock = userId /\ amount lock = a /\ status lock = active.
Proof.
  intros env userId a d w. unfold POST.
  destruct (Date_of _).
  - right. eexists. split; [reflexivity|]. repeat split.
  - left. reflexivity.
Qed.

(** An unlock request either fails and leaves the rows as they were, or
    succeeds, having found one active row of the user, and sets the status
    of the rows of that id to claimed. *)
Lemma POST_unlock_settled :
  forall env userId lockId userAddress force w,
    (exists e w',
       POST env (Unlock userId lockId userAddress force) w = (Error500 e, w') /\
       box_locks w' = box_locks w /\ next_id w' = next_id w) \/
    (exists reward w' lock,
       POST env (Unlock userId lockId userAddress force) w = (Unlocked reward, w') /\
       select_lock lockId userId w = [lock] /\ status lock = active /\
       box_locks w' =
       map (fun l => if Nat.eqb (id l) lockId then set_status claimed l else l)
           (box_locks w) /\
       next_id w' = next_id w).
Proof.
  intros env userId lockId userAddress force w. unfold POST.
  destruct (select_lock lockId userId w) as [|lock [|]] eqn:Hsel; cbn [single];
    try (left; eexists; eexists; split; [reflexivity|split; reflexivity]).
  destruct (status lock) eqn:Hst;
    [|left; eexists; eexists; split; [reflexivity|split; reflexivity]].
  destruct (negb (ends_at lock <=? clock env) && negb force);
    [left; eexists; eexists; split; [reflexivity|split; reflexivity]|].
  cbv zeta. destruct (Qgtb _ 0).
  - destruct (negb (admin_ready env));
      [left; eexists; eexists; split; [reflexivity|split; reflexivity]|].
    destruct (negb (PublicKey_parses userAddress));
      [left; eexists; eexists; split; [reflexivity|split; reflexivity]|].
    destruct (negb (balance_read env));
      [left; eexists; eexists; split; [reflexivity|split; reflexivity]|].
    destruct (rewardLamports _) as [l|];
      [|left; eexists; eexists; split; [reflexivity|split; reflexivity]].
    destruct (treasury_short _ _);
      [left; eexists; eexists; split; [reflexivity|split; reflexivity]|].
    pose proof (sendAndConfirmTransaction_rows env (mkTransfer userAddress l) w)
      as (Hrows & Hnext).
    destruct (sendAndConfirmTransaction env (mkTransfer userAddress l) w)
      as [[|] w1]; cbn [snd] in Hrows, Hnext.
    + right. eexists. eexists. exists lock. split; [reflexivity|].
      split; [reflexivity|]. split; [exact Hst|].
      unfold update_status. cbn [box_locks next_id]. rewrite Hrows.
      split; [reflexivity|exact Hnext].
    + left. eexists. eexists. split; [reflexivity|]. split; assumption.
  - right. eexists. eexists. exists lock. split; [reflexivity|].
    split; [reflexivity|]. split; [exact Hst|]. split; reflexivity.
Qed.

(** What a request does to the table: nothing, one more row with the next
    id, or some rows set to claimed. *)
Lemma POST_rows :
  forall env body w,
    (box_locks (snd (POST env body w)) = box_locks w /\
     next_id (snd (POST env body w)) = next_id w) \/
    (exists lock,
       box_locks (snd (POST env body w)) = box_locks w ++ [lock] /\
       next_id (snd (POST env body w)) = S (next_id w) /\
       id lock = next_id w) \/
    (exists lockId,
       box_locks (snd (POST env body w)) =
       box_locks (update_status claimed lockId w) /\
       next_id (snd (POST env body w)) = next_id w).
Proof.
  intros env body w. destruct body as [userId a d|userId lockId addr force|].
  - destruct (POST_create_stored env userId a d w) as [H|(lock & H & Hid & _)];
      rewrite H; cbn [snd box_locks next_id].
    + left. split; reflexivity.
    + right. left. exists lock. repeat split. exact Hid.
  - destruct (POST_unlock_settled env userId lockId addr force w)
      as [(e & w' & H & Hrows & Hnext)|(r & w' & lock & H & _ & _ & Hrows & Hnext)];
      rewrite H; cbn [snd].
    + left. split; assumption.
    + right. right. exists lockId. split; assumption.
  - left. split; reflexivity.
Qed.

(** The handler keeps the ids apart. *)
Lemma POST_ids_unique :
  forall env body w, ids_unique w -> ids_unique (snd (POST env body w)).
Proof.
  intros env body w [Hnd Hlt]. unfold ids_unique.
  destruct (POST_rows env body w)
    as [(Hrows & Hnext)|[(lock & Hrows & Hnext & Hid)|(lockId & Hrows & Hnext)]];
    rewrite Hrows, Hnext.
  - split; assumption.
  - split.
    + rewrite map_app. simpl. apply NoDup_app_remove_r with (l' := []).
      rewrite app_nil_r.
      apply Permutation_NoDup with (l := id lock :: map id (box_locks w)).
      * apply Permutation_cons_append.
      * constructor; [|exact Hnd].
        intro Hin. apply in_map_iff in Hin. destruct Hin as (l & Hl & Hin).
        rewrite Forall_forall in Hlt. specialize (Hlt l Hin). lia.
    + apply Forall_app. split.
      * eapply Forall_impl; [|exact Hlt]. intros l Hl. simpl in *. lia.
      * constructor; [lia|constructor].
  - unfold update_status. cbn [box_locks]. split.
    + rewrite map_map.
      rewrite (map_ext _ id); [exact Hnd|].
      intro l. destruct (Nat.eqb (id l) lockId); reflexivity.
    + apply Forall_map. eapply Forall_impl; [|exact Hlt].
      intros l Hl. simpl. destruct (Nat.eqb (id l) lockId); exact Hl.
Qed.

(** The handler's answer to an unlock, once the row is known. *)
Lemma POST_unlock_found :
  forall env userId lockId userAddress force w lock,
    select_lock lockId userId w = [lock] ->
    POST env (Unlock userId lockId userAddress force) w =
    match status lock with
    | claimed => (Error500 AlreadySettled, w)
    | active =>
        let isTimeOver := ends_at lock <=? clock env in
        if negb isTimeOver && negb force then (Error500 StillLocked, w)
        else
          let finalRewardAmount : Q :=
            if negb isTimeOver && force then 0%Q else reward_amount lock in
          if Qgtb finalRewardAmount 0 then
            if negb (admin_ready env) then (Error500 AdminUnavailable, w)
            else if negb (PublicKey_parses userAddress)
            then (Error500 InvalidPublicKey, w)
            else if negb (balance_read env) then (Error500 BalanceUnread, w)
            else
              match rewardLamports finalRewardAmount with
              | None => (Error500 TreasuryInsufficient, w)
              | Some lamports =>
                  if treasury_short (adminBalance w) lamports
                  then (Error500 TreasuryInsufficient, w)
                  else
                    let (returned, w1) :=
                      sendAndConfirmTransaction
                        env (mkTransfer userAddress lamports) w in
                    if returned
                    then (Unlocked finalRewardAmount, update_status claimed lockId w1)
                    else (Error500 TransferFailed, w1)
              end
          else
            (Unlocked finalRewardAmount, update_status claimed lockId w)
    end.
Proof.
  intros env userId lockId userAddress force w lock Hsel.
  unfold POST. rewrite Hsel. reflexivity.
Qed.

(** A successful unlock found one active row and left it claimed. *)
Lemma POST_unlock_success :
  forall env userId lockId userAddress force w reward w',
    POST env (Unlock userId lockId userAddress force) w = (Unlocked reward, w') ->
    exists lock,
      select_lock lockId userId w = [lock] /\ status lock = active /\
      select_lock lockId userId w' = [set_status claimed lock].
Proof.
  intros env userId lockId userAddress force w reward w' H.
  destruct (POST_unlock_settled env userId lockId userAddress force w)
    as [(e & w1 & H1 & _)|(r & w1 & lock & H1 & Hsel & Hst & Hrows & _)];
    rewrite H1 in H; [discriminate|].
  injection H as _ <-.
  exists lock. split; [exact Hsel|]. split; [exact Hst|].
  pose proof (select_lock_update_status claimed lockId userId w) as Hupd.
  unfold select_lock in *. unfold update_status in Hupd. cbn [box_locks] in Hupd.
  rewrite Hrows, Hupd, Hsel. reflexivity.
Qed.



(** C7. A settle call on an active lock made strictly before its end,
    without the force flag, fails with StillLocked and returns the state it
    was given: the lock stays active and no transfer is submitted. *)
Theorem settle_still_locked :
  forall env userId lockId userAddress w lock,
    ids_unique w ->
    lock_of w userId lockId lock ->
    status lock = active ->
    clock env < ends_at lock ->
    POST env (Unlock userId lockId userAddress false) w =
    (Error500 StillLocked, w).
Proof.
  intros env userId lockId userAddress w lock Hw Hlock Hst Hnow.
  rewrite (POST_unlock_found _ _ _ _ _ _ lock).
  - rewrite Hst. cbv zeta.
    assert (E : (ends_at lock <=? clock env) = false) by (apply Z.leb_gt; lia).
    rewrite E. reflexivity.
  - apply select_lock_found; assumption.
Qed.

(** The one-day lock, an hour after its creation. *)
Lemma settle_still_locked_witness :
  ids_unique (day_world 5) /\
  lock_of (day_world 5) alice 0 day_lock /\
  3600000 < ends_at day_lock /\
  POST (at_time 3600000) (Unlock alice 0 alice_key false) (day_world 5) =
  (Error500 StillLocked, day_world 5).
Proof.
  assert (Hw : ids_unique (day_world 5)) by (apply ids_unique_one; reflexivity).
  assert (Hlock : lock_of (day_world 5) alice 0 day_lock)
    by (unfold lock_of; simpl; auto).
  assert (Hnow : 3600000 < ends_at day_lock) by (simpl; lia).
  split; [exact Hw|]. split; [exact Hlock|]. split; [exact Hnow|].
  apply (settle_still_locked (at_time 3600000) alice 0 alice_key (day_world 5)
           day_lock Hw Hlock eq_refl Hnow).
Defined.

(** ** Creation and the stored reward *)

Lemma same_terms_refl : forall l, same_terms l l.
Proof. intro l. repeat split. Qed.

Lemma same_terms_trans :
  forall l1 l2 l3, same_terms l1 l2 -> same_terms l2 l3 -> same_terms l1 l3.
Proof.
  intros l1 l2 l3 (A1 & A2 & A3 & A4 & A5 & A6) (B1 & B2 & B3 & B4 & B5 & B6).
  repeat split; congruence.
Qed.

Lemma update_status_keeps_claimed :
  forall lockId w n lock,
    nth_error (box_locks w) n = Some lock ->
    exists lock',
      nth_error (box_locks (update_status claimed lockId w)) n = Some lock' /\
      same_terms lock lock' /\
      (status lock = claimed -> status lock' = claimed).
Proof.
  intros lockId w n lock H. unfold update_status. cbn [box_locks].
  rewrite nth_error_map, H. cbn [option_map].
  eexists. split; [reflexivity|].
  destruct (Nat.eqb (id lock) lockId).
  - split; [repeat split|reflexivity].
  - split; [apply same_terms_refl|trivial].
Qed.

(** No request touches the terms of a row that is already stored, nor
    makes a claimed row active. *)
Lemma POST_keeps_claimed :
  forall env body w n lock,
    nth_error (box_locks w) n = Some lock ->
    exists lock',
      nth_error (box_locks (snd (POST env body w))) n = Some lock' /\
      same_terms lock lock' /\
      (status lock = claimed -> status lock' = claimed).
Proof.
  intros env body w n lock H.
  destruct (POST_rows env body w)
    as [(Hrows & _)|[(l & Hrows & _)|(lockId & Hrows & _)]]; rewrite Hrows.
  - exists lock. split; [exact H|]. split; [apply same_terms_refl|trivial].
  - exists lock. split; [|split; [apply same_terms_refl|trivial]].
    rewrite nth_error_app1; [exact H|]. apply nth_error_Some. congruence.
  - apply update_status_keeps_claimed. exact H.
Qed.



Lemma Date_of_valid :
  forall now d,
    valid_end now d ->
    Date_of (inject_Z now + d * 60 * 60 * 1000)%Q =
    Some (Qtrunc (inject_Z now + d * 60 * 60 * 1000)%Q).
Proof.
  intros now d H. unfold Date_of.
  apply Qle_bool_iff in H. rewrite H. reflexivity.
Qed.

Lemma Date_of_invalid :
  forall now d,
    ~ valid_end now d ->
    Date_of (inject_Z now + d * 60 * 60 * 1000)%Q = None.
Proof.
  intros now d H. unfold Date_of.
  destruct (Qle_bool _ _) eqn:E; [|reflexivity].
  apply Qle_bool_iff in E. exfalso. apply H. exact E.
Qed.



(** The earlier handler stores half of that: its rate is 5 %. *)
Lemma legacy_reward_rate :
  forall env userId a d w,
    valid_end (clock env) d ->
    exists lock,
      Legacy.POST env (Create userId a d) w =
      (Created,
       mkWorld (box_locks w ++ [lock]) (S (next_id w)) (adminBalance w) (submitted w)
               (transaction_history w)) /\
      (reward_amount lock == a * 0.05 * (d / 8760))%Q.
Proof.
  intros env userId a d w Hvalid.
  eexists. split.
  - unfold Legacy.POST. rewrite (Date_of_valid (clock env) d Hvalid). reflexivity.
  - simpl. reflexivity.
Qed.

(** ** Settlement *)

Lemma treasury_short_true :
  forall b L, treasury_short b L = true <-> (balance_number b < inject_Z L)%Q.
Proof. intros b L. unfold treasury_short. apply Qgtb_true. Qed.

Lemma treasury_short_false :
  forall b L, treasury_short b L = false <-> (inject_Z L <= balance_number b)%Q.
Proof. intros b L. unfold treasury_short. apply Qgtb_false. Qed.

(** An integer within one below a rational is its floor. *)
Lemma Qfloor_unique :
  forall (x : Q) (z : Z),
    (inject_Z z <= x)%Q -> (x < inject_Z z + 1)%Q -> Qfloor x = z.
Proof.
  intros x z Hlo Hhi.
  pose proof (Qfloor_le x) as Hf.
  pose proof (Qlt_floor x) as Hc.
  assert (H1 : (inject_Z z < inject_Z (Qfloor x + 1))%Q)
    by (eapply Qle_lt_trans; eassumption).
  assert (H2 : (inject_Z (Qfloor x) < inject_Z (z + 1))%Q).
  { rewrite inject_Z_plus. change (inject_Z 1) with 1%Q.
    eapply Qle_lt_trans; eassumption. }
  rewrite <- Zlt_Qlt in H1, H2. lia.
Qed.

(** [Math.floor] of a finite product is the integer within one below it. *)
Lemma rewardLamports_floor :
  forall reward L,
    is_finite (reward_product reward) = true ->
    (inject_Z L <= Q_of_double (reward_product reward))%Q ->
    (Q_of_double (reward_product reward) < inject_Z L + 1)%Q ->
    rewardLamports reward = Some L.
Proof.
  intros reward L Hfin Hlo Hhi. unfold rewardLamports, Math_floor.
  rewrite Hfin. f_equal. apply Qfloor_unique; assumption.
Qed.

Lemma rewardLamports_infinite :
  forall reward,
    is_finite (reward_product reward) = false -> rewardLamports reward = None.
Proof.
  intros reward Hfin. unfold rewardLamports, Math_floor. rewrite Hfin.
  reflexivity.
Qed.



(** The handler's answer to an unlock at or after the lock's end when there
    is a reward to pay and the keys and the balance are obtained. *)
Lemma Unlock_to_pay :
  forall env userId lockId userAddress force w lock,
    select_lock lockId userId w = [lock] ->
    status lock = active ->
    ends_at lock <= clock env ->
    (0 < reward_amount lock)%Q ->
    admin_ready env = true ->
    PublicKey_parses userAddress = true ->
    balance_read env = true ->
    POST env (Unlock userId lockId userAddress force) w =
    match rewardLamports (reward_amount lock) with
    | None => (Error500 TreasuryInsufficient, w)
    | Some lamports =>
        if treasury_short (adminBalance w) lamports
        then (Error500 TreasuryInsufficient, w)
        else
          let (returned, w1) :=
            sendAndConfirmTransaction env (mkTransfer userAddress lamports) w in
          if returned
          then (Unlocked (reward_amount lock), update_status claimed lockId w1)
          else (Error500 TransferFailed, w1)
    end.
Proof.
  intros env userId lockId userAddress force w lock Hsel Hst Hnow Hr Ha Hk Hb.
  rewrite (POST_unlock_found _ _ _ _ _ _ _ Hsel), Hst. cbv zeta.
  assert (E : (ends_at lock <=? clock env) = true) by (apply Z.leb_le; exact Hnow).
  assert (E0 : Qgtb (reward_amount lock) 0 = true) by (apply Qgtb_true; exact Hr).
  rewrite E. cbn [negb andb]. rewrite E0, Ha, Hk, Hb. reflexivity.
Qed.

(** The transfer lands and is confirmed. *)
Lemma sendAndConfirmTransaction_confirmed :
  forall env t w,
    lands env = true -> lamports t + fee env <= adminBalance w ->
    confirms env = true ->
    sendAndConfirmTransaction env t w =
    (true,
     mkWorld (box_locks w) (next_id w) (adminBalance w - lamports t - fee env)
             (submitted w ++ [t]) (transaction_history w)).
Proof.
  intros env t w Hl Hf Hc. unfold sendAndConfirmTransaction.
  assert (E : (lamports t + fee env <=? adminBalance w) = true)
    by (apply Z.leb_le; exact Hf).
  rewrite Hl, E, Hc. reflexivity.
Qed.

(** The settle call that pays. *)
Lemma Unlock_pays :
  forall env userId lockId userAddress force w lock L,
    select_lock lockId userId w = [lock] ->
    status lock = active ->
    ends_at lock <= clock env ->
    (0 < reward_amount lock)%Q ->
    admin_ready env = true ->
    PublicKey_parses userAddress = true ->
    balance_read env = true ->
    rewardLamports (reward_amount lock) = Some L ->
    (inject_Z L <= balance_number (adminBalance w))%Q ->
    lands env = true ->
    L + fee env <= adminBalance w ->
    confirms env = true ->
    POST env (Unlock userId lockId userAddress force) w =
    (Unlocked (reward_amount lock),
     update_status claimed lockId
       (mkWorld (box_locks w) (next_id w) (adminBalance w - L - fee env)
                (submitted w ++ [mkTransfer userAddress L])
                (transaction_history w))).
Proof.
  intros env userId lockId userAddress force w lock L Hsel Hst Hnow Hr Ha Hk Hb
         HL Hseen Hl Hf Hc.
  rewrite (Unlock_to_pay _ _ _ _ _ _ _ Hsel Hst Hnow Hr Ha Hk Hb), HL.
  apply treasury_short_false in Hseen. rewrite Hseen.
  rewrite sendAndConfirmTransaction_confirmed by assumption. reflexivity.
Qed.



(** A matured lock whose reward is below one lamport, an empty treasury, a
    well-formed address: the reward to pay is positive and the treasury
    holds less, yet the settle call does not fail with TreasuryInsufficient.
    The lamports to pay are 0, the balance is not below them, and a transfer
    of 0 lamports is handed to the network, where it fails for want of the
    fee.  And with an address that is no key the call fails before the
    treasury is read, whatever it holds. *)
Lemma settle_dust_with_empty_treasury :
  lock_of (dust_world 0) alice 0 dust_lock /\
  status dust_lock = active /\
  ends_at dust_lock <= 300000 /\
  (0 < reward_amount dust_lock)%Q /\
  (inject_Z (adminBalance (dust_world 0)) <
   reward_amount dust_lock * LAMPORTS_PER_SOL)%Q /\
  POST (at_time 300000) (Unlock alice 0 alice_wallet false) (dust_world 0) =
  (Error500 TransferFailed,
   mkWorld [dust_lock] 1 0 [mkTransfer alice_wallet 0] []) /\
  POST (at_time 86400000) (Unlock alice 0 alice_key false) (day_world 0) =
  (Error500 InvalidPublicKey, day_world 0).
Proof.
  split; [|split; [|split; [|split; [|split; [|split]]]]].
  - unfold lock_of. simpl. auto.
  - reflexivity.
  - simpl. lia.
  - reflexivity.
  - reflexivity.
  - vm_compute. reflexivity.
  - vm_compute. reflexivity.
Qed.

(** C5, amended. A settle call on an active lock at or after its end, with
    a positive stored reward, once the admin key is usable, the address
    given is a well-formed key and the balance read answers: if the number
    read for the admin wallet is below the lamports to pay, which are the
    integer within one below the binary64 product of the reward and 10^9,
    or if that product is not finite, the call fails with
    TreasuryInsufficient and returns the state it was given, so no transfer
    is handed over and the lock stays active. *)
Theorem settle_treasury_insufficient :
  forall env userId lockId userAddress force w lock,
    ids_unique w ->
    lock_of w userId lockId lock ->
    status lock = active ->
    ends_at lock <= clock env ->
    (0 < reward_amount lock)%Q ->
    admin_ready env = true ->
    PublicKey_parses userAddress = true ->
    balance_read env = true ->
    (is_finite (reward_product (reward_amount lock)) = false \/
     exists L,
       is_finite (reward_product (reward_amount lock)) = true /\
       (inject_Z L <= Q_of_double (reward_product (reward_amount lock)))%Q /\
       (Q_of_double (reward_product (reward_amount lock)) < inject_Z L + 1)%Q /\
       (balance_number (adminBalance w) < inject_Z L)%Q) ->
    POST env (Unlock userId lockId userAddress force) w =
    (Error500 TreasuryInsufficient, w).
Proof.
  intros env userId lockId userAddress force w lock Hw Hlock Hst Hnow Hpos Ha Hk
         Hb Hshort.
  pose proof (select_lock_found _ _ _ _ Hw Hlock) as Hsel.
  rewrite (Unlock_to_pay _ _ _ _ _ _ _ Hsel Hst Hnow Hpos Ha Hk Hb).
  destruct Hshort as [Hinf|(L & Hfin & Hlo & Hhi & Hlow)].
  - rewrite (rewardLamports_infinite _ Hinf). reflexivity.
  - rewrite (rewardLamports_floor _ _ Hfin Hlo Hhi).
    apply treasury_short_true in Hlow. rewrite Hlow. reflexivity.
Qed.

(** The one-day lock, whose reward of about 0.274 SOL makes 273972602
    lamports, against a treasury of 0.1 SOL. *)
Lemma settle_treasury_insufficient_witness :
  ids_unique (day_world 100000000) /\
  lock_of (day_world 100000000) alice 0 day_lock /\
  (0 < reward_amount day_lock)%Q /\
  PublicKey_parses alice_wallet = true /\
  (balance_number (adminBalance (day_world 100000000)) < inject_Z 273972602)%Q /\
  POST (at_time 86400000) (Unlock alice 0 alice_wallet false) (day_world 100000000) =
  (Error500 TreasuryInsufficient, day_world 100000000).
Proof.
  assert (Hw : ids_unique (day_world 100000000))
    by (apply ids_unique_one; reflexivity).
  assert (Hlock : lock_of (day_world 100000000) alice 0 day_lock)
    by (unfold lock_of; simpl; auto).
  assert (Hpos : (0 < reward_amount day_lock)%Q) by reflexivity.
  assert (Hk : PublicKey_parses alice_wallet = true) by (vm_compute; reflexivity).
  assert (Hlow : (balance_number (adminBalance (day_world 100000000)) <
                  inject_Z 273972602)%Q) by (vm_compute; reflexivity).
  split; [exact Hw|]. split; [exact Hlock|]. split; [exact Hpos|].
  split; [exact Hk|]. split; [exact Hlow|].
  apply (settle_treasury_insufficient (at_time 86400000) alice 0 alice_wallet false
           (day_world 100000000) day_lock Hw Hlock eq_refl);
    [simpl; lia|exact Hpos|reflexivity|exact Hk|reflexivity|].
  right. exists 273972602.
  split; [vm_compute; reflexivity|].
  split; [unfold Qle; vm_compute; discriminate|].
  split; [vm_compute; reflexivity|exact Hlow].
Defined.

(** The earlier handler's settle call that pays. *)
Lemma Legacy_unlock_pays :
  forall env userId lockId userAddress force w lock L,
    select_lock lockId userId w = [lock] ->
    status lock = active ->
    ends_at lock <= clock env ->
    admin_ready env = true ->
    PublicKey_parses userAddress = true ->
    balance_read env = true ->
    rewardLamports (reward_amount lock) = Some L ->
    (inject_Z L <= balance_number (adminBalance w))%Q ->
    lands env = true ->
    L + fee env <= adminBalance w ->
    confirms env = true ->
    Legacy.POST env (Unlock userId lockId userAddress force) w =
    (Unlocked (reward_amount lock),
     insert_history (mkRewardRecord userId (reward_amount lock) 0)
       (update_status claimed lockId
          (if 0 <? L
           then mkWorld (box_locks w) (next_id w) (adminBalance w - L - fee env)
                        (submitted w ++ [mkTransfer userAddress L])
                        (transaction_history w)
           else w))).
Proof.
  intros env userId lockId userAddress force w lock L Hsel Hst Hnow Ha Hk Hb HL
         Hseen Hl Hf Hc.
  unfold Legacy.POST. rewrite Hsel. unfold single. cbv beta iota. rewrite Hst.
  assert (E1 : (clock env <? ends_at lock) = false) by (apply Z.ltb_ge; exact Hnow).
  apply treasury_short_false in Hseen.
  rewrite E1, Ha, Hk, Hb. cbn [negb]. cbv zeta. rewrite HL, Hseen.
  destruct (0 <? L); [|reflexivity].
  rewrite sendAndConfirmTransaction_confirmed by assumption. reflexivity.
Qed.

(** Two matured locks whose transfers are not the floor of the reward times
    10^9.  The reward the handler stored for 36.792 SOL over 5 minutes is
    the double nearest to 0.000035, which lies below it: the floor of that
    reward times 10^9 is 34999, and the transfer handed over carries 35000
    lamports, the binary64 product being 35000.  The reward the store shows
    as 0.000008125 makes 8125 lamports, and the transfer carries 8124. *)
Lemma settle_transfer_not_exact_floor :
  Qfloor (reward_amount rounded_up_lock * LAMPORTS_PER_SOL) = 34999 /\
  POST (at_time 300000) (Unlock alice 0 alice_wallet false)
       (mkWorld [rounded_up_lock] 1 1000000000 [] []) =
  (Unlocked (reward_amount rounded_up_lock),
   mkWorld [set_status claimed rounded_up_lock] 1 999960000
           [mkTransfer alice_wallet 35000] []) /\
  Qfloor (reward_amount rounded_down_lock * LAMPORTS_PER_SOL) = 8125 /\
  POST (at_time 300000) (Unlock alice 0 alice_wallet false)
       (mkWorld [rounded_down_lock] 1 1000000000 [] []) =
  (Unlocked (reward_amount rounded_down_lock),
   mkWorld [set_status claimed rounded_down_lock] 1 999986876
           [mkTransfer alice_wallet 8124] []).
Proof.
  split; [|split; [|split]]; vm_compute; reflexivity.
Qed.

(** C10, amended. A settle call that pays: the lock is active, its end has
    come, its stored reward is positive, the admin key is usable, the
    address given is a well-formed key, the balance read answers with a
    number not below the lamports to pay, and the transfer lands and is
    confirmed.  The lamports to pay are the integer [L] within one below the
    binary64 product of the reward and 10^9.  The current handler hands over
    one transfer of exactly [L] lamports and the admin wallet is debited by
    [L] and the fee; the earlier handler does the same except that it hands
    over nothing, and nothing is debited, when [L] is 0; and both return the
    stored reward as it is.  Hence when the product is below 1 the transfer
    carries 0 lamports while the reward returned is positive. *)
Theorem settle_transfers_floor_lamports :
  forall env userId lockId userAddress force w lock L,
    ids_unique w ->
    lock_of w userId lockId lock ->
    status lock = active ->
    ends_at lock <= clock env ->
    (0 < reward_amount lock)%Q ->
    admin_ready env = true ->
    PublicKey_parses userAddress = true ->
    balance_read env = true ->
    is_finite (reward_product (reward_amount lock)) = true ->
    (inject_Z L <= Q_of_double (reward_product (reward_amount lock)))%Q ->
    (Q_of_double (reward_product (reward_amount lock)) < inject_Z L + 1)%Q ->
    (inject_Z L <= balance_number (adminBalance w))%Q ->
    lands env = true ->
    L + fee env <= adminBalance w ->
    confirms env = true ->
    (exists w',
       POST env (Unlock userId lockId userAddress force) w =
       (Unlocked (reward_amount lock), w') /\
       submitted w' = submitted w ++ [mkTransfer userAddress L] /\
       adminBalance w' = adminBalance w - L - fee env) /\
    (exists w',
       Legacy.POST env (Unlock userId lockId userAddress force) w =
       (Unlocked (reward_amount lock), w') /\
       submitted w' =
       submitted w ++ (if 0 <? L then [mkTransfer userAddress L] else []) /\
       adminBalance w' =
       if 0 <? L then adminBalance w - L - fee env else adminBalance w) /\
    ((Q_of_double (reward_product (reward_amount lock)) < 1)%Q -> L = 0).
Proof.
  intros env userId lockId userAddress force w lock L Hw Hlock Hst Hnow Hpos Ha
         Hk Hb Hfin Hlo Hhi Hseen Hl Hf Hc.
  pose proof (select_lock_found _ _ _ _ Hw Hlock) as Hsel.
  pose proof (rewardLamports_floor _ _ Hfin Hlo Hhi) as HL.
  split; [|split].
  - rewrite (Unlock_pays _ _ _ _ _ _ _ _ Hsel Hst Hnow Hpos Ha Hk Hb HL Hseen Hl
               Hf Hc).
    eexists. split; [reflexivity|]. split; reflexivity.
  - rewrite (Legacy_unlock_pays _ _ _ _ _ _ _ _ Hsel Hst Hnow Ha Hk Hb HL Hseen
               Hl Hf Hc).
    eexists. split; [reflexivity|].
    unfold insert_history, update_status. cbn [submitted adminBalance].
    destruct (0 <? L).
    + split; reflexivity.
    + rewrite app_nil_r. split; reflexivity.
  - intro Hsmall.
    assert (H : (inject_Z L < inject_Z 1)%Q)
      by (eapply Qle_lt_trans; [exact Hlo|exact Hsmall]).
    assert (H0 : (inject_Z 0 < inject_Z (L + 1))%Q).
    { rewrite inject_Z_plus. change (inject_Z 1) with 1%Q.
      eapply Qle_lt_trans; [apply (reward_product_nonneg _ Hpos)|exact Hhi]. }
    rewrite <- Zlt_Qlt in H, H0. lia.
Qed.

(** The one-day lock settled at its end against a treasury of 1 SOL: the
    reward returned is 1000 * 0.10 * (24 / 8760) SOL and the transfer
    carries 273972602 lamports; and the lock of 0.001 SOL for 5 minutes,
    whose product is below 1: a positive reward is returned and the transfer
    carries 0 lamports. *)
Lemma settle_transfers_floor_lamports_witness :
  ids_unique (day_world 1000000000) /\
  lock_of (day_world 1000000000) alice 0 day_lock /\
  (0 < reward_amount day_lock)%Q /\
  PublicKey_parses alice_wallet = true /\
  (exists w',
     POST (at_time 86400000) (Unlock alice 0 alice_wallet false)
          (day_world 1000000000) =
     (Unlocked (reward_amount day_lock), w') /\
     submitted w' = [mkTransfer alice_wallet 273972602] /\
     adminBalance w' = 726022398) /\
  (0 < reward_amount dust_lock)%Q /\
  (Q_of_double (reward_product (reward_amount dust_lock)) < 1)%Q /\
  exists w',
    POST (at_time 300000) (Unlock alice 0 alice_wallet false) (dust_world 5000) =
    (Unlocked (reward_amount dust_lock), w') /\
    submitted w' = [mkTransfer alice_wallet 0].
Proof.
  assert (Hw : ids_unique (day_world 1000000000))
    by (apply ids_unique_one; reflexivity).
  assert (Hlock : lock_of (day_world 1000000000) alice 0 day_lock)
    by (unfold lock_of; simpl; auto).
  assert (Hpos : (0 < reward_amount day_lock)%Q) by reflexivity.
  assert (Hk : PublicKey_parses alice_wallet = true) by (vm_compute; reflexivity).
  assert (Hw0 : ids_unique (dust_world 5000))
    by (apply ids_unique_one; reflexivity).
  assert (Hlock0 : lock_of (dust_world 5000) alice 0 dust_lock)
    by (unfold lock_of; simpl; auto).
  assert (Hpos0 : (0 < reward_amount dust_lock)%Q) by reflexivity.
  assert (Hsmall : (Q_of_double (reward_product (reward_amount dust_lock)) < 1)%Q)
    by (vm_compute; reflexivity).
  destruct (settle_transfers_floor_lamports (at_time 86400000) alice 0 alice_wallet
              false (day_world 1000000000) day_lock 273972602 Hw Hlock eq_refl)
    as ((w' & HPOST & Hsent & Hbal) & _);
    [simpl; lia|exact Hpos|reflexivity|exact Hk|reflexivity
     |vm_compute; reflexivity|unfold Qle; vm_compute; discriminate
     |vm_compute; reflexivity|unfold Qle; vm_compute; discriminate
     |reflexivity|vm_compute; discriminate|reflexivity|].
  destruct (settle_transfers_floor_lamports (at_time 300000) alice 0 alice_wallet
              false (dust_world 5000) dust_lock 0 Hw0 Hlock0 eq_refl)
    as ((w0 & HPOST0 & Hsent0 & _) & _);
    [simpl; lia|exact Hpos0|reflexivity|exact Hk|reflexivity
     |vm_compute; reflexivity|unfold Qle; vm_compute; discriminate
     |vm_compute; reflexivity|unfold Qle; vm_compute; discriminate
     |reflexivity|vm_compute; discriminate|reflexivity|].
  split; [exact Hw|]. split; [exact Hlock|]. split; [exact Hpos|].
  split; [exact Hk|]. split.
  - exists w'. split; [exact HPOST|]. split; [exact Hsent|exact Hbal].
  - split; [exact Hpos0|]. split; [exact Hsmall|].
    exists w0. split; [exact HPOST0|exact Hsent0].
Defined.
(** ** Sums of lock amounts *)

Lemma fold_amounts_from :
  forall rows (a : Q),
    (fold_left (fun sum lock => sum + amount lock) rows a ==
     a + sum_amounts rows)%Q.
Proof.
  unfold sum_amounts.
  induction rows as [|r rows IH]; intro a; simpl.
  - ring.
  - rewrite (IH (a + amount r)%Q), (IH (0 + amount r)%Q). ring.
Qed.

Lemma sum_amounts_cons :
  forall r rows, (sum_amounts (r :: rows) == amount r + sum_amounts rows)%Q.
Proof.
  intros r rows. unfold sum_amounts at 1. simpl.
  rewrite fold_amounts_from. ring.
Qed.

(** Setting some statuses to claimed can only lower a user's active sum. *)
Lemma sum_amounts_after_claim :
  forall userId lockId rows,
    Forall (fun l => (0 <= amount l)%Q) rows ->
    (sum_amounts
       (active_locks_of userId
          (map (fun l => if Nat.eqb (id l) lockId then set_status claimed l else l)
               rows)) <=
     sum_amounts (active_locks_of userId rows))%Q.
Proof.
  intros userId lockId rows H. induction H as [|r rows Hr Hrows IH]; simpl.
  - lra.
  - destruct (Nat.eqb (id r) lockId).
    + simpl. unfold is_active at 1. simpl. rewrite andb_false_r.
      destruct (String.eqb (user_id r) userId && is_active r).
      * rewrite sum_amounts_cons.
        fold (active_locks_of userId rows). lra.
      * exact IH.
    + destruct (String.eqb (user_id r) userId && is_active r).
      * rewrite !sum_amounts_cons. lra.
      * exact IH.
Qed.


(** A create request either stores one active row of the user for the
    amount asked, or fails and changes nothing. *)
Lemma POST_create_cases :
  forall env userId a d w,
    POST env (Create userId a d) w = (Error500 InvalidTimeValue, w) \/
    exists lock,
      POST env (Create userId a d) w =
      (Created, mkWorld (box_locks w ++ [lock]) (S (next_id w)) (adminBalance w)
                        (submitted w) (transaction_history w)) /\
      user_id lock = userId /\ amount lock = a /\ status lock = active.
Proof.
  intros env userId a d w. unfold POST.
  destruct (Date_of _).
  - right. eexists. split; [reflexivity|]. repeat split.
  - left. reflexivity.
Qed.


(** An unlock request either fails and leaves the rows as they were, or
    succeeds and sets the status of the rows of that id to claimed. *)
Lemma POST_unlock_cases :
  forall env userId lockId userAddress force w,
    (exists e w',
       POST env (Unlock userId lockId userAddress force) w = (Error500 e, w') /\
       box_locks w' = box_locks w) \/
    (exists reward w',
       POST env (Unlock userId lockId userAddress force) w = (Unlocked reward, w') /\
       box_locks w' =
       map (fun l => if Nat.eqb (id l) lockId then set_status claimed l else l)
           (box_locks w)).
Proof.
  intros env userId lockId userAddress force w.
  destruct (POST_unlock_settled env userId lockId userAddress force w)
    as [(e & w' & H & Hrows & _)|(r & w' & lock & H & _ & _ & Hrows & _)].
  - left. exists e, w'. split; assumption.
  - right. exists r, w'. split; assumption.
Qed.

Lemma div_lamports :
  forall x : Q, (x / LAMPORTS_PER_SOL == x * (1 # 1000000000))%Q.
Proof. intro x. reflexivity. Qed.

(** ** The component's view of the two stores *)

Lemma vault_balance_set_same :
  forall owner b v w, vault_balance owner (mkSystem (set_vault owner b v) w) = b.
Proof.
  intros owner b v w. unfold vault_balance, set_vault. simpl.
  rewrite String.eqb_refl. reflexivity.
Qed.

Lemma vault_balance_set_other :
  forall owner p b v w,
    p <> owner ->
    vault_balance p (mkSystem (set_vault owner b v) w) =
    vault_balance p (mkSystem v w).
Proof.
  intros owner p b v w Hp. unfold vault_balance, set_vault. simpl.
  destruct (String.eqb p owner) eqn:E; [|reflexivity].
  apply String.eqb_eq in E. contradiction.
Qed.

(** ** The lock form *)





(** ** The balance and the locked amounts *)

(** A release, whoever sends it and however it ends, keeps a covered user
    covered. *)
Lemma POST_unlock_covered :
  forall env u lockId userAddress force s userId owner,
    amounts_nonneg s ->
    covered userId owner s ->
    covered userId owner
            (mkSystem (vaults s)
                      (snd (POST env (Unlock u lockId userAddress force)
                                 (registry s)))).
Proof.
  intros env u lockId userAddress force s userId owner Ha Hc.
  unfold covered, locked_sum, vault_balance in *. cbn [vaults registry].
  destruct (POST_unlock_cases env u lockId userAddress force (registry s))
    as [(e & w' & H & Hrows)|(r & w' & H & Hrows)];
    rewrite H; cbn [snd]; rewrite Hrows.
  - exact Hc.
  - eapply Qle_trans; [|exact Hc].
    apply (sum_amounts_after_claim userId lockId _ Ha).
Qed.

(** A deposit the program accepts keeps a covered user covered. *)
Lemma program_deposit_covered :
  forall o amount s v' userId owner,
    program_deposit o amount (vaults s) = inr v' ->
    covered userId owner s ->
    covered userId owner (mkSystem v' (registry s)).
Proof.
  intros o amount s v' userId owner Hd Hc.
  unfold program_deposit in Hd.
  destruct (vaults s o) as [b|] eqn:Ev; [|discriminate].
  destruct (0 <? amount) eqn:Ea; [|discriminate].
  injection Hd as <-. apply Z.ltb_lt in Ea.
  unfold covered in *.
  change (locked_sum userId (mkSystem (set_vault o (b + amount) (vaults s))
                                      (registry s)))
    with (locked_sum userId s).
  eapply Qle_trans; [exact Hc|].
  rewrite !div_lamports.
  assert (Hle : vault_balance owner s <=
                vault_balance owner (mkSystem (set_vault o (b + amount) (vaults s))
                                              (registry s))).
  { destruct (String.eqb owner o) eqn:E.
    - apply String.eqb_eq in E. subst o.
      rewrite vault_balance_set_same. unfold vault_balance. rewrite Ev. lia.
    - apply String.eqb_neq in E.
      rewrite vault_balance_set_other by exact E.
      destruct s as [v w]. apply Z.le_refl. }
  rewrite Zle_Qle in Hle.
  apply Qmult_le_compat_r; [exact Hle|]. unfold Qle. simpl. lia.
Qed.

(** The balance stops covering the locks: after a create request sent to
    the route for 5 SOL over a vault of 2 SOL; after the component, in step
    with a vault of 1 SOL and locks of 0.1 and 0.7 SOL, has locked
    0.20000000000000007 SOL, which its binary64 guard lets through; and
    after the component, in step with a vault of 1 SOL and locks of 0.1 and
    0.2 SOL, has withdrawn 0.7 SOL, which its guard lets through as the sum
    of the locks it computes leaves exactly that. *)
Lemma cover_broken_by_lock :
  covered alice alice_wallet two_sol_system /\
  fst (POST (at_time 0) (Create alice 5 1) (registry two_sol_system)) = Created /\
  ~ covered alice alice_wallet
      (mkSystem (vaults two_sol_system)
                (snd (POST (at_time 0) (Create alice 5 1) (registry two_sol_system)))) /\
  covered alice alice_wallet (locked_system 1000000000 [0.1; 0.7]%Q) /\
  in_sync alice alice_wallet (locked_system 1000000000 [0.1; 0.7]%Q)
          (synced (locked_system 1000000000 [0.1; 0.7]%Q)) /\
  fst (fst (handleLock Answered (at_time 0) (Some 0.20000000000000007%Q) true
                       (locked_system 1000000000 [0.1; 0.7]%Q)
                       (synced (locked_system 1000000000 [0.1; 0.7]%Q)))) =
  Alerted LockCreated /\
  ~ covered alice alice_wallet
      (snd (fst (handleLock Answered (at_time 0) (Some 0.20000000000000007%Q) true
                            (locked_system 1000000000 [0.1; 0.7]%Q)
                            (synced (locked_system 1000000000 [0.1; 0.7]%Q))))) /\
  covered alice alice_wallet (locked_system 1000000000 [0.1; 0.2]%Q) /\
  in_sync alice alice_wallet (locked_system 1000000000 [0.1; 0.2]%Q)
          (synced (locked_system 1000000000 [0.1; 0.2]%Q)) /\
  fst (fst (withdraw all_answered (Some 0.7%Q)
                     (locked_system 1000000000 [0.1; 0.2]%Q)
                     (synced (locked_system 1000000000 [0.1; 0.2]%Q)))) =
  Completed /\
  ~ covered alice alice_wallet
      (snd (fst (withdraw all_answered (Some 0.7%Q)
                          (locked_system 1000000000 [0.1; 0.2]%Q)
                          (synced (locked_system 1000000000 [0.1; 0.2]%Q))))).
Proof.
  repeat match goal with
         | |- _ /\ _ => split
         | |- in_sync _ _ _ _ => unfold in_sync
         end;
    try (vm_compute; reflexivity);
    try (unfold covered, Qle; vm_compute; discriminate);
    unfold covered, Qle; vm_compute; intro H; apply H; reflexivity.
Qed.

(** C1, amended. Among the successful operations, a release and a deposit
    keep the balance of every owner at or above the sum of the amounts of
    the owner's active locks, as long as no lock was made for a negative
    amount: a release, whoever sends it and whatever its outcome, only
    takes locks out of the sum, and a deposit only raises a balance.  A
    withdraw of an amount that the component finds above
    [availableToWithdraw], the balance in SOL minus the sum of the locks it
    fetched last, computed in binary64, is refused and leaves both stores
    and the component as they were, and so is a lock of such an amount. *)
Theorem balance_covers_active_locks :
  forall userId owner s,
    amounts_nonneg s ->
    covered userId owner s ->
    (forall env u lockId userAddress force,
       covered userId owner
               (mkSystem (vaults s)
                         (snd (POST env (Unlock u lockId userAddress force)
                                    (registry s))))) /\
    (forall o amount v',
       program_deposit o amount (vaults s) = inr v' ->
       covered userId owner (mkSystem v' (registry s))) /\
    (forall rpc amountInput c wallet,
       myWallet c = Some wallet ->
       js_gt (parseFloat amountInput) js_zero = true ->
       js_gt (parseFloat amountInput) (availableToWithdraw c) = true ->
       withdraw rpc amountInput s c = (Alerted ExceedsWithdrawable, s, c)) /\
    (forall net env lockAmountInput confirmed c u,
       session c = Some u ->
       js_gt (parseFloat lockAmountInput) js_zero = true ->
       js_gt (parseFloat lockAmountInput) (availableToWithdraw c) = true ->
       handleLock net env lockAmountInput confirmed s c =
       (Alerted InsufficientAvailableBalance, s, c)).
Proof.
  intros userId owner s Ha Hc. split; [|split; [|split]].
  - intros env u lockId userAddress force.
    apply POST_unlock_covered; assumption.
  - intros o amount v' Hd.
    apply (program_deposit_covered o amount s v' userId owner Hd Hc).
  - intros rpc amountInput c wallet Hw Hpos Hover.
    unfold withdraw. rewrite Hw. cbv zeta.
    apply js_positive in Hpos. rewrite Hpos, Hover. reflexivity.
  - intros net env lockAmountInput confirmed c u Hs Hpos Hover.
    unfold handleLock. rewrite Hs. cbv zeta.
    apply js_positive in Hpos. rewrite Hpos, Hover. reflexivity.
Qed.

(** A vault of 1 SOL with locks of 0.1 and 0.2 SOL, the component in step:
    the forced release of the first lock and a deposit of 1 SOL leave the
    locks covered, and a withdraw of 0.8 SOL is refused. *)
Lemma balance_covers_active_locks_witness :
  amounts_nonneg (locked_system 1000000000 [0.1; 0.2]%Q) /\
  covered alice alice_wallet (locked_system 1000000000 [0.1; 0.2]%Q) /\
  covered alice alice_wallet
          (mkSystem (vaults (locked_system 1000000000 [0.1; 0.2]%Q))
                    (snd (POST (at_time 60000) (Unlock alice 0 alice_wallet true)
                               (registry (locked_system 1000000000 [0.1; 0.2]%Q))))) /\
  covered alice alice_wallet
          (mkSystem (set_vault alice_wallet 2000000000
                               (vaults (locked_system 1000000000 [0.1; 0.2]%Q)))
                    (registry (locked_system 1000000000 [0.1; 0.2]%Q))) /\
  withdraw all_answered (Some 0.8%Q) (locked_system 1000000000 [0.1; 0.2]%Q)
           (synced (locked_system 1000000000 [0.1; 0.2]%Q)) =
  (Alerted ExceedsWithdrawable, locked_system 1000000000 [0.1; 0.2]%Q,
   synced (locked_system 1000000000 [0.1; 0.2]%Q)).
Proof.
  assert (Ha : amounts_nonneg (locked_system 1000000000 [0.1; 0.2]%Q)).
  { unfold amounts_nonneg.
    repeat constructor; unfold Qle; vm_compute; discriminate. }
  assert (Hc : covered alice alice_wallet (locked_system 1000000000 [0.1; 0.2]%Q))
    by (unfold covered, Qle; vm_compute; discriminate).
  destruct (balance_covers_active_locks alice alice_wallet
              (locked_system 1000000000 [0.1; 0.2]%Q) Ha Hc)
    as (Hrelease & Hdeposit & Hwithdraw & _).
  split; [exact Ha|]. split; [exact Hc|]. split; [|split].
  - apply Hrelease.
  - apply (Hdeposit alice_wallet 1000000000). reflexivity.
  - apply (Hwithdraw all_answered (Some 0.8%Q) _ alice_wallet).
    + reflexivity.
    + vm_compute. reflexivity.
    + vm_compute. reflexivity.
Defined.
(** * Further properties *)

(** ** The resilience wrapper, whatever the read does *)

Section RetryBounds.
Context {T Net : Type}.
Variable fn : @Read T Net.

Lemma total_delay_backoff_le :
  forall (n retries : nat) (delay : Z),
    0 <= delay -> (n <= retries)%nat ->
    total_delay (backoff n delay) <= total_delay (backoff retries delay).
Proof.
  induction n as [|n IH]; intros retries delay Hd Hn.
  - clear Hn. revert delay Hd.
    induction retries as [|r IHr]; intros delay Hd; simpl; [lia|].
    specialize (IHr (delay * 2) ltac:(lia)). simpl in IHr. lia.
  - destruct retries as [|r]; [lia|]. simpl.
    specialize (IH r (delay * 2) ltac:(lia) ltac:(lia)). lia.
Qed.

(** For any bound and first delay there is a number [n] of retries, at most
    the bound, such that the first [n] calls were rate limited, call [n]
    was the last allowed or settled otherwise, and the wrapper settles as
    call [n]. *)
Lemma retryRPC_stops :
  forall (retries : nat) (delay : Z) (net : Net),
    exists n,
      (n <= retries)%nat /\
      (forall k, (k < n)%nat -> is_rate_limited (fst (nth_call fn net k)) = true) /\
      (n = retries \/ is_rate_limited (fst (nth_call fn net n)) = false) /\
      retryRPC fn retries delay net =
      (fst (nth_call fn net n),
       mkTrace (backoff n delay) (snd (nth_call fn net n))).
Proof.
  induction retries as [|r IH]; intros delay net.
  - exists 0%nat. split; [lia|]. split; [intros k Hk; lia|].
    split; [left; reflexivity|].
    apply retryRPC_general; [lia|intros k Hk; lia|left; reflexivity].
  - destruct (is_rate_limited (fst (fn net))) eqn:E.
    + destruct (IH (delay * 2) (snd (fn net))) as (n & Hn & Hlim & Hstop & _).
      assert (Hlim' : forall k, (k < S n)%nat ->
                is_rate_limited (fst (nth_call fn net k)) = true).
      { intros [|k] Hk; simpl; [exact E|]. apply Hlim. lia. }
      assert (Hstop' : S n = S r \/
                is_rate_limited (fst (nth_call fn net (S n))) = false).
      { destruct Hstop as [->|Hstop]; [left; reflexivity|right; exact Hstop]. }
      exists (S n). split; [lia|]. split; [exact Hlim'|]. split; [exact Hstop'|].
      apply retryRPC_general; [lia|exact Hlim'|exact Hstop'].
    + exists 0%nat. split; [lia|]. split; [intros k Hk; lia|].
      split; [right; exact E|].
      apply retryRPC_general; [lia|intros k Hk; lia|right; exact E].
Qed.
End RetryBounds.

(** X1.  Whatever the read does and whatever the network state, the wrapper
    with its default parameters makes at most four calls, sleeps the first
    [n <= 3] of the delays 1000, 2000, 4000 (at most 7000 ms in all), and
    settles exactly as its last call did; every call before the last one
    failed with a rate-limit error. *)
Theorem retryRPC_default_bounds :
  forall (T Net : Type) (fn : @Read T Net) (net : Net),
    exists n,
      (n <= 3)%nat /\
      (forall k, (k < n)%nat -> is_rate_limited (fst (nth_call fn net k)) = true) /\
      fst (retryRPC_default fn net) = fst (nth_call fn net n) /\
      net_after (snd (retryRPC_default fn net)) = snd (nth_call fn net n) /\
      slept (snd (retryRPC_default fn net)) = firstn n [1000; 2000; 4000] /\
      total_delay (slept (snd (retryRPC_default fn net))) <= 7000.
Proof.
  intros T Net fn net. unfold retryRPC_default.
  destruct (retryRPC_stops fn 3 1000 net) as (n & Hn & Hlim & _ & Heq).
  exists n. rewrite Heq. cbn [fst snd slept net_after].
  split; [exact Hn|]. split; [exact Hlim|].
  split; [reflexivity|]. split; [reflexivity|].
  split.
  - destruct n as [|[|[|[|n]]]]; try reflexivity. lia.
  - pose proof (total_delay_backoff_le n 3 1000 ltac:(lia) Hn) as H.
    simpl in H. exact H.
Qed.

(** X2.  With no retries left the wrapper makes one call and never sleeps,
    even on a rate-limit failure; and a retry is charged to the delay it was
    given: after [n] rate-limited calls the wrapper has slept
    delay * (2^n - 1) in all. *)
Theorem retryRPC_delay_total :
  forall (T Net : Type) (fn : @Read T Net) (retries : nat) (delay : Z) (net : Net),
    retryRPC fn 0 delay net = (fst (fn net), mkTrace [] (snd (fn net))) /\
    exists n,
      (n <= retries)%nat /\
      slept (snd (retryRPC fn retries delay net)) = backoff n delay /\
      total_delay (slept (snd (retryRPC fn retries delay net))) =
      delay * (2 ^ Z.of_nat n - 1).
Proof.
  intros T Net fn retries delay net. split.
  - rewrite retryRPC_unfold. destruct (fn net) as [[v|e] net']; reflexivity.
  - destruct (retryRPC_stops fn retries delay net) as (n & Hn & _ & _ & Heq).
    exists n. rewrite Heq. cbn [snd slept].
    split; [exact Hn|]. split; [reflexivity|].
    clear. revert delay. induction n as [|n IH]; intro delay.
    + simpl. lia.
    + cbn [backoff total_delay fold_right].
      change (fold_right Z.add 0 (backoff n (delay * 2)))
        with (total_delay (backoff n (delay * 2))).
      rewrite IH. rewrite Nat2Z.inj_succ, Z.pow_succ_r by lia. lia.
Qed.

(** ** The stage grows with the balance *)

(** X3.  The stage never goes down when the balance goes up, a balance of 0
    or less (which [withdraw] clamps to 0) is the first stage, and the label
    shown on screen is the stage written to the token. *)
Theorem tier_monotone :
  forall b b' : Q,
    (b <= b')%Q ->
    (tier_rank (targetTier b) <= tier_rank (targetTier b'))%nat /\
    ((b' <= 0)%Q -> targetTier b = Sprout /\ targetTier b' = Sprout) /\
    gifData b = tier_label (targetTier b).
Proof.
  intros b b' Hle. split; [|split].
  - unfold targetTier.
    destruct (Qgeb b 5) eqn:E5.
    + apply Qgeb_true in E5.
      assert (E5' : Qgeb b' 5 = true) by (apply Qgeb_true; lra).
      rewrite E5'. simpl. lia.
    + destruct (Qgtb b 0) eqn:E0.
      * apply Qgtb_true in E0.
        destruct (Qgeb b' 5); [simpl; lia|].
        assert (E0' : Qgtb b' 0 = true) by (apply Qgtb_true; lra).
        rewrite E0'. simpl. lia.
      * simpl. lia.
  - intro Hneg. unfold targetTier.
    assert (Qgeb b 5 = false) as -> by (apply Qgeb_false; lra).
    assert (Qgeb b' 5 = false) as -> by (apply Qgeb_false; lra).
    assert (Qgtb b 0 = false) as -> by (apply Qgtb_false; lra).
    assert (Qgtb b' 0 = false) as -> by (apply Qgtb_false; lra).
    split; reflexivity.
  - apply gifData_targetTier.
Qed.

(** From 4.9 to 5 SOL the stage goes from Growing to Legendary. *)
Lemma tier_monotone_witness :
  (4.9 <= 5)%Q /\
  (tier_rank (targetTier 4.9) <= tier_rank (targetTier 5))%nat /\
  gifData 4.9 = "Growing"%string.
Proof.
  assert (H : (4.9 <= 5)%Q) by (unfold Qle; simpl; lia).
  destruct (tier_monotone 4.9%Q 5%Q H) as (Hrank & _ & Hlabel).
  split; [exact H|]. split; [exact Hrank|]. exact Hlabel.
Defined.

(** X8.  Over any sequence of requests a stored lock keeps its place in the
    table, its id, user, amount, duration, reward and end, and a lock that is
    claimed stays claimed: no request deletes a row or makes a claimed lock
    active again. *)
Theorem claimed_is_terminal :
  forall requests w n lock,
    nth_error (box_locks w) n = Some lock ->
    exists lock',
      nth_error (box_locks (serve requests w)) n = Some lock' /\
      same_terms lock lock' /\
      (status lock = claimed -> status lock' = claimed).
Proof.
  induction requests as [|[env body] rest IH]; intros w n lock H; simpl.
  - exists lock. split; [exact H|]. split; [apply same_terms_refl|trivial].
  - destruct (POST_keeps_claimed env body w n lock H) as (l1 & H1 & S1 & C1).
    destruct (IH _ n l1 H1) as (l2 & H2 & S2 & C2).
    exists l2. split; [exact H2|].
    split; [eapply same_terms_trans; eassumption|]. auto.
Qed.

(** The claimed lock of the shared table, after a forced release of another
    lock, a new lock and an attempt on the claimed one. *)
Lemma claimed_is_terminal_witness :
  nth_error (box_locks shared_world) 2 = Some old_lock /\
  exists lock',
    nth_error
      (box_locks
         (serve [(at_time 10, Unlock alice 0 alice_key true);
                 (at_time 20, Create bob 1 1);
                 (at_time 30, Unlock alice 2 alice_key true)] shared_world)) 2 =
    Some lock' /\
    status lock' = claimed /\ amount lock' = amount old_lock.
Proof.
  assert (H : nth_error (box_locks shared_world) 2 = Some old_lock) by reflexivity.
  split; [exact H|].
  destruct (claimed_is_terminal
              [(at_time 10, Unlock alice 0 alice_key true);
               (at_time 20, Create bob 1 1);
               (at_time 30, Unlock alice 2 alice_key true)]
              shared_world 2 old_lock H) as (lock' & Hn & Hs & Hc).
  exists lock'. split; [exact Hn|]. split; [apply Hc; reflexivity|].
  destruct Hs as (_ & _ & Ha & _). exact Ha.
Defined.







(** ** A transfer that lands unseen *)




(** ** From creation to release *)



(** ** The two handlers side by side *)

(** The number read for a balance that is not negative is not negative. *)
Lemma balance_number_nonneg :
  forall b, 0 <= b -> (0 <= balance_number b)%Q.
Proof.
  intros b Hb. unfold balance_number, Number_of_Z, binary_normalize.
  destruct b as [|m|m]; [cbn; unfold Qle; cbn; lia| |lia].
  unfold binary_round.
  destruct (shl_align m 0 _) as [mz ez].
  destruct (binary_round_aux 53 1024 false (Z.pos mz) ez loc_Exact)
    as [s|s| |s m' e'] eqn:Er; try (cbn; unfold Qle; cbn; lia).
  apply binary_round_aux_sign in Er. subst s.
  apply Q_of_double_positive_sign.
Qed.

(** A finite double with a negative sign denotes a number that is not
    positive. *)
Lemma Q_of_double_negative_sign :
  forall m e, (Q_of_double (S754_finite true m e) <= 0)%Q.
Proof.
  intros m e. unfold Q_of_double.
  destruct e as [|p|p]; unfold Qle, Qopp; cbn [Qnum Qden inject_Z]; lia.
Qed.

(** The number a negative rational is read as has no positive sign. *)
Lemma Number_of_Q_negative_sign :
  forall q s m e,
    (q < 0)%Q -> Number_of_Q q = S754_finite s m e -> s = true.
Proof.
  intros [n d] s m e Hq. unfold Number_of_Q. cbn [Qnum Qden].
  destruct n as [|n|n].
  - discriminate.
  - exfalso. unfold Qlt in Hq. cbn [Qnum Qden] in Hq. lia.
  - unfold SFdiv.
    destruct (SFdiv_core_binary 53 1024 (Z.pos n) 0 (Z.pos d) 0) as [[mz ez] lz].
    apply binary_round_aux_sign.
Qed.

(** The lamports of a reward that is not positive are not positive. *)
Lemma rewardLamports_nonpos :
  forall reward L,
    (reward <= 0)%Q -> rewardLamports reward = Some L -> L <= 0.
Proof.
  intros reward L Hr. unfold rewardLamports, Math_floor, reward_product.
  assert (HL : LAMPORTS_PER_SOL64 = S754_finite false 8388608000000000 (-23))
    by (vm_compute; reflexivity).
  rewrite HL.
  assert (Hfloor : forall x : Q, (x <= 0)%Q -> Qfloor x <= 0).
  { intros x Hx. apply Z.le_trans with (Qfloor 0); [|apply Z.le_refl].
    apply Qfloor_resp_le. exact Hx. }
  destruct (Qlt_le_dec reward 0) as [Hneg|Hzero].
  - pose proof (Number_of_Q_negative_sign reward) as Hsign.
    destruct (Number_of_Q reward) as [sx|sx| |sx mx ex] eqn:E;
      try (cbn; intro H; injection H as <-; vm_compute; discriminate);
      try discriminate.
    assert (sx = true) by (apply (Hsign sx mx ex Hneg); reflexivity).
    subst sx. unfold js_mul, SFmul. cbn [xorb].
    destruct (binary_round_aux 53 1024 true (Z.pos (mx * 8388608000000000))
                               (ex + -23) loc_Exact) as [s|s| |s m e] eqn:Er;
      try (cbn; intro H; injection H as <-; vm_compute; discriminate);
      try discriminate.
    apply binary_round_aux_sign in Er. subst s.
    intro H.
    assert (HLeq : L = Qfloor (Q_of_double (S754_finite true m e)))
      by (cbn [is_finite] in H; congruence).
    rewrite HLeq. apply Hfloor. apply Q_of_double_negative_sign.
  - assert (Hq : Qnum reward = 0).
    { destruct reward as [n d]. unfold Qle in Hr, Hzero.
      cbn [Qnum Qden] in *. lia. }
    unfold Number_of_Q. rewrite Hq. cbn.
    intro H. injection H as <-. vm_compute. discriminate.
Qed.

(** Where the two handlers part.  For a matured lock whose reward makes 0
    lamports the current handler hands a transfer of 0 lamports to the
    network (here it lands and its fee is paid) and the earlier one hands
    over nothing; and for a release forced before the end with an address
    that is no key, the current handler succeeds and the earlier one, which
    does not read [force], answers that the lock is still locked. *)
Lemma legacy_release_differs :
  POST (at_time 300000) (Unlock alice 0 alice_wallet false) (dust_world 5000) =
  (Unlocked (reward_amount dust_lock),
   mkWorld [set_status claimed dust_lock] 1 0 [mkTransfer alice_wallet 0] []) /\
  Legacy.POST (at_time 300000) (Unlock alice 0 alice_wallet false) (dust_world 5000) =
  (Unlocked (reward_amount dust_lock),
   mkWorld [set_status claimed dust_lock] 1 5000 []
           [mkRewardRecord alice (reward_amount dust_lock) 0]) /\
  fst (POST (at_time 1000) (Unlock alice 0 alice_key true) (dust_world 5000)) =
  Unlocked 0 /\
  fst (Legacy.POST (at_time 1000) (Unlock alice 0 alice_key true) (dust_world 5000)) =
  Error500 StillLocked.
Proof.
  split; [|split; [|split]]; vm_compute; reflexivity.
Qed.

(** X12.  The earlier handler (app/api/lock/route.ts) and the current one
    (app/app/api/lock/route.ts) release alike where the steps the earlier
    one always takes succeed.  With the admin key usable, a well-formed
    address, a balance read that answers and an admin balance that is not
    negative, whatever [force] the earlier handler is sent, which it does
    not read, it answers as the current one does without [force], and
    leaves the same rows, the same admin balance and the same transfers,
    provided the reward of the lock is at most 0 or makes at least one
    lamport; the earlier handler's history row is the only difference. *)
Theorem legacy_release_agrees :
  forall env userId lockId userAddress force w,
    admin_ready env = true ->
    PublicKey_parses userAddress = true ->
    balance_read env = true ->
    0 <= adminBalance w ->
    (forall lock, lock_of w userId lockId lock ->
       (reward_amount lock <= 0)%Q \/
       ((0 < reward_amount lock)%Q /\
        forall L, rewardLamports (reward_amount lock) = Some L -> 1 <= L)) ->
    let old := Legacy.POST env (Unlock userId lockId userAddress force) w in
    let new := POST env (Unlock userId lockId userAddress false) w in
    fst old = fst new /\
    box_locks (snd old) = box_locks (snd new) /\
    next_id (snd old) = next_id (snd new) /\
    adminBalance (snd old) = adminBalance (snd new) /\
    submitted (snd old) = submitted (snd new) /\
    (ok (fst new) = false -> transaction_history (snd old) = transaction_history w).
Proof.
  intros env userId lockId userAddress force w Ha Hk Hb Hnn Hreward. cbv zeta.
  unfold Legacy.POST, POST.
  destruct (single (select_lock lockId userId w)) as [lock|] eqn:Hsel;
    [|repeat split; reflexivity].
  specialize (Hreward lock (single_select_lock _ _ _ _ Hsel)).
  destruct (status lock); [|repeat split; reflexivity].
  cbv zeta. rewrite andb_true_r.
  destruct (clock env <? ends_at lock) eqn:Enow.
  - assert (E : (ends_at lock <=? clock env) = false).
    { apply Z.leb_gt. apply Z.ltb_lt in Enow. exact Enow. }
    rewrite E. cbn [negb]. repeat split; reflexivity.
  - assert (E : (ends_at lock <=? clock env) = true).
    { apply Z.leb_le. apply Z.ltb_ge in Enow. exact Enow. }
    rewrite E, Ha, Hk, Hb. cbn [negb andb].
    destruct Hreward as [Hle|[Hpos Hge]].
    + assert (Eg : Qgtb (reward_amount lock) 0 = false) by (apply Qgtb_false; exact Hle).
      rewrite Eg.
      destruct (rewardLamports (reward_amount lock)) as [L|] eqn:EL.
      * pose proof (rewardLamports_nonpos _ _ Hle EL) as HL.
        assert (E1 : treasury_short (adminBalance w) L = false).
        { apply treasury_short_false.
          apply Qle_trans with (inject_Z 0).
          - rewrite <- Zle_Qle. exact HL.
          - apply (balance_number_nonneg _ Hnn). }
        assert (E2 : (0 <? L) = false) by (apply Z.ltb_ge; exact HL).
        rewrite E1, E2. cbn [fst snd ok].
        repeat split; try reflexivity. discriminate.
      * cbn [fst snd ok]. repeat split; try reflexivity. discriminate.
    + assert (Eg : Qgtb (reward_amount lock) 0 = true) by (apply Qgtb_true; exact Hpos).
      rewrite Eg.
      destruct (rewardLamports (reward_amount lock)) as [L|] eqn:EL;
        [|repeat split; reflexivity].
      specialize (Hge L eq_refl).
      assert (E2 : (0 <? L) = true) by (apply Z.ltb_lt; lia).
      rewrite E2.
      destruct (treasury_short (adminBalance w) L); [repeat split; reflexivity|].
      assert (Hh : transaction_history
                     (snd (sendAndConfirmTransaction
                             env (mkTransfer userAddress L) w)) =
                   transaction_history w).
      { unfold sendAndConfirmTransaction.
        destruct (lands env && _); reflexivity. }
      destruct (sendAndConfirmTransaction env (mkTransfer userAddress L) w)
        as [[|] w1]; cbn [fst snd ok] in *.
      * repeat split; try reflexivity. discriminate.
      * repeat split; try reflexivity. intros _. exact Hh.
Qed.

(** The day lock at its end, next to an admin wallet of 1 SOL, released to
    a well-formed address. *)
Lemma legacy_release_agrees_witness :
  PublicKey_parses alice_wallet = true /\
  0 <= adminBalance (day_world 1000000000) /\
  rewardLamports (reward_amount day_lock) = Some 273972602 /\
  fst (Legacy.POST (at_time 86400000) (Unlock alice 0 alice_wallet true)
                   (day_world 1000000000)) =
  fst (POST (at_time 86400000) (Unlock alice 0 alice_wallet false)
            (day_world 1000000000)) /\
  submitted (snd (Legacy.POST (at_time 86400000) (Unlock alice 0 alice_wallet true)
                              (day_world 1000000000))) =
  submitted (snd (POST (at_time 86400000) (Unlock alice 0 alice_wallet false)
                       (day_world 1000000000))).
Proof.
  assert (Hk : PublicKey_parses alice_wallet = true) by (vm_compute; reflexivity).
  assert (Hnn : 0 <= adminBalance (day_world 1000000000)) by (simpl; lia).
  assert (HL : rewardLamports (reward_amount day_lock) = Some 273972602)
    by (vm_compute; reflexivity).
  split; [exact Hk|]. split; [exact Hnn|]. split; [exact HL|].
  destruct (legacy_release_agrees (at_time 86400000) alice 0%nat alice_wallet true
              (day_world 1000000000) eq_refl Hk eq_refl Hnn)
    as (Hres & _ & _ & _ & Hsent & _).
  - intros lock (Hin & _). destruct Hin as [<-|[]]. right.
    split; [reflexivity|].
    intros L H. rewrite HL in H. injection H as <-. lia.
  - split; [exact Hres|exact Hsent].
Defined.

(** ** Locking and releasing *)

(** X13.  Locking moves no funds.  However [handleLock] ends, the vaults,
    the admin wallet, the transfers and the reward history are as before
    and the component's state is untouched (the refresh of the locks shown
    is started, not awaited).  The registry is as before or has gained one
    row at its end: an active lock of the session's user, under the next
    id, for the amount typed as the number it was read as and for the
    selected duration.  When the handler reports the lock as created the
    row is there, and its amount is above 0 and was not found above
    [availableToWithdraw]. *)
Theorem lock_moves_no_funds :
  forall net env lockAmountInput confirmed s c,
    let out := fst (fst (handleLock net env lockAmountInput confirmed s c)) in
    let s' := snd (fst (handleLock net env lockAmountInput confirmed s c)) in
    let c' := snd (handleLock net env lockAmountInput confirmed s c) in
    let grown :=
      exists lock,
        box_locks (registry s') = box_locks (registry s) ++ [lock] /\
        next_id (registry s') = S (next_id (registry s)) /\
        id lock = next_id (registry s) /\
        session c = Some (user_id lock) /\
        amount lock = Q_of_double (parseFloat lockAmountInput) /\
        duration_hours lock = lockDuration c /\
        status lock = active /\
        js_gt (parseFloat lockAmountInput) js_zero = true /\
        js_gt (parseFloat lockAmountInput) (availableToWithdraw c) = false in
    vaults s' = vaults s /\
    adminBalance (registry s') = adminBalance (registry s) /\
    submitted (registry s') = submitted (registry s) /\
    transaction_history (registry s') = transaction_history (registry s) /\
    c' = c /\
    (registry s' = registry s \/ grown) /\
    (out = Alerted LockCreated -> grown).
Proof.
  intros net env lockAmountInput confirmed s c. cbv zeta.
  unfold handleLock.
  destruct (session c) as [userId|] eqn:Hs;
    [|cbn [fst snd]; repeat split; try (left; reflexivity); discriminate].
  cbv zeta.
  destruct (isNaN (parseFloat lockAmountInput) ||
            js_le (parseFloat lockAmountInput) js_zero) eqn:Hbad;
    [cbn [fst snd]; repeat split; try (left; reflexivity); discriminate|].
  destruct (js_gt (parseFloat lockAmountInput) (availableToWithdraw c)) eqn:Hav;
    [cbn [fst snd]; repeat split; try (left; reflexivity); discriminate|].
  destruct (negb confirmed);
    [cbn [fst snd]; repeat split; try (left; reflexivity); discriminate|].
  apply js_positive in Hbad.
  assert (Hgrown :
    forall lock,
      id lock = next_id (registry s) -> user_id lock = userId ->
      amount lock = Q_of_double (parseFloat lockAmountInput) ->
      duration_hours lock = lockDuration c -> status lock = active ->
      exists lock0,
        box_locks (registry s) ++ [lock] = box_locks (registry s) ++ [lock0] /\
        S (next_id (registry s)) = S (next_id (registry s)) /\
        id lock0 = next_id (registry s) /\
        Some userId = Some (user_id lock0) /\
        amount lock0 = Q_of_double (parseFloat lockAmountInput) /\
        duration_hours lock0 = lockDuration c /\
        status lock0 = active /\
        js_gt (parseFloat lockAmountInput) js_zero = true /\
        true = true).
  { intros lock H1 H2 H3 H4 H5. exists lock. repeat split; try assumption.
    rewrite H2. reflexivity. }
  destruct net.
  - cbn [fst snd]. repeat split; try (left; reflexivity); discriminate.
  - unfold POST. destruct (Date_of _) as [endsAt|].
    + cbn [fst snd registry vaults insert box_locks next_id adminBalance
           submitted transaction_history].
      repeat split; try discriminate.
      right.
      destruct (Hgrown (mkLock (next_id (registry s)) userId
                               (Q_of_double (parseFloat lockAmountInput))
                               (lockDuration c)
                               (Q_of_double (parseFloat lockAmountInput) * 0.10 *
                                (lockDuration c / 8760))%Q endsAt active))
        as (lock0 & H0 & _ & H1 & H2 & H3 & H4 & H5 & H6 & _); try reflexivity.
      exists lock0. repeat split; assumption.
    + cbn [fst snd]. destruct s. repeat split; try (left; reflexivity); discriminate.
  - unfold POST. destruct (Date_of _) as [endsAt|].
    + cbn [fst snd ok negb registry vaults insert box_locks next_id adminBalance
           submitted transaction_history].
      assert (G : exists lock0,
        box_locks (registry s) ++
        [mkLock (next_id (registry s)) userId
                (Q_of_double (parseFloat lockAmountInput)) (lockDuration c)
                (Q_of_double (parseFloat lockAmountInput) * 0.10 *
                 (lockDuration c / 8760))%Q endsAt active] =
        box_locks (registry s) ++ [lock0] /\
        S (next_id (registry s)) = S (next_id (registry s)) /\
        id lock0 = next_id (registry s) /\
        Some userId = Some (user_id lock0) /\
        amount lock0 = Q_of_double (parseFloat lockAmountInput) /\
        duration_hours lock0 = lockDuration c /\
        status lock0 = active /\
        js_gt (parseFloat lockAmountInput) js_zero = true /\
        false = false).
      { eexists. repeat split. exact Hbad. }
      repeat split; try (right; exact G). intros _. exact G.
    + cbn [fst snd ok negb]. destruct s.
      repeat split; try (left; reflexivity); discriminate.
Qed.




(** ** The locks shown *)

Lemma insert_by_ends_at_HdRel :
  forall r l rows,
    ends_at r <= ends_at l ->
    HdRel (fun l l' => ends_at l <= ends_at l') r rows ->
    HdRel (fun l l' => ends_at l <= ends_at l') r (insert_by_ends_at l rows).
Proof.
  intros r l rows Hrl Hhd. destruct rows as [|r' rows]; simpl.
  - constructor. exact Hrl.
  - destruct (ends_at l <? ends_at r').
    + constructor. exact Hrl.
    + inversion Hhd; subst. constructor. assumption.
Qed.

Lemma insert_by_ends_at_sorted :
  forall l rows, ascending_ends rows -> ascending_ends (insert_by_ends_at l rows).
Proof.
  unfold ascending_ends. intros l rows H.
  induction H as [|r rows Hsorted IH Hhd]; simpl.
  - repeat constructor.
  - destruct (ends_at l <? ends_at r) eqn:E.
    + apply Z.ltb_lt in E. constructor.
      * constructor; assumption.
      * constructor. lia.
    + apply Z.ltb_ge in E. constructor; [exact IH|].
      apply insert_by_ends_at_HdRel; assumption.
Qed.

Lemma insert_by_ends_at_perm :
  forall l rows, Permutation (insert_by_ends_at l rows) (l :: rows).
Proof.
  intros l rows. induction rows as [|r rows IH]; simpl.
  - apply Permutation_refl.
  - destruct (ends_at l <? ends_at r).
    + apply Permutation_refl.
    + eapply Permutation_trans; [apply perm_skip; exact IH|apply perm_swap].
Qed.

Lemma order_by_ends_at_sorted :
  forall rows, ascending_ends (order_by_ends_at rows).
Proof.
  induction rows as [|r rows IH]; simpl.
  - constructor.
  - apply insert_by_ends_at_sorted. exact IH.
Qed.

Lemma order_by_ends_at_perm :
  forall rows, Permutation (order_by_ends_at rows) rows.
Proof.
  induction rows as [|r rows IH]; simpl.
  - apply Permutation_refl.
  - eapply Permutation_trans; [apply insert_by_ends_at_perm|].
    apply perm_skip. exact IH.
Qed.

(** X16.  [fetchLocks] shows exactly the user's active locks, the soonest to
    end first: the list it stores is in ascending order of [ends_at], it is a
    rearrangement of the user's active rows of the table (none dropped, none
    repeated, none of another user, none claimed), and the rest of the
    component's state is left alone. *)
Theorem fetchLocks_ordered :
  forall userId s c,
    let c' := fetchLocks userId s c in
    ascending_ends (activeLocks c') /\
    Permutation (activeLocks c') (active_locks_of userId (box_locks (registry s))) /\
    (forall l, In l (activeLocks c') <->
               In l (box_locks (registry s)) /\ user_id l = userId /\
               status l = active) /\
    (List.length (activeLocks c') <= List.length (box_locks (registry s)))%nat /\
    session c' = session c /\ myWallet c' = myWallet c /\ balance c' = balance c.
Proof.
  intros userId s c. cbv zeta. unfold fetchLocks. cbn [setActiveLocks activeLocks
    session myWallet balance].
  pose proof (order_by_ends_at_perm
                (active_locks_of userId (box_locks (registry s)))) as Hperm.
  split; [apply order_by_ends_at_sorted|]. split; [exact Hperm|].
  split; [|split; [|repeat split]].
  - intro l. split.
    + intro Hin. apply (Permutation_in _ Hperm) in Hin.
      unfold active_locks_of in Hin. apply filter_In in Hin.
      destruct Hin as (Hin & Hb). apply andb_true_iff in Hb.
      destruct Hb as (Hu & Hact). apply String.eqb_eq in Hu.
      split; [exact Hin|]. split; [exact Hu|].
      unfold is_active in Hact. destruct (status l); [reflexivity|discriminate].
    + intros (Hin & Hu & Hst).
      apply (Permutation_in _ (Permutation_sym Hperm)).
      unfold active_locks_of. apply filter_In. split; [exact Hin|].
      apply andb_true_iff. split; [apply String.eqb_eq; exact Hu|].
      unfold is_active. rewrite Hst. reflexivity.
  - rewrite (Permutation_length Hperm). unfold active_locks_of.
    apply filter_length_le.
Qed.

(** ** Closing the account *)

Lemma active_locks_of_after_delete :
  forall userId u rows,
    u <> userId ->
    active_locks_of u
      (filter (fun l => negb (String.eqb (user_id l) userId)) rows) =
    active_locks_of u rows.
Proof.
  intros userId u rows Hu. unfold active_locks_of.
  induction rows as [|r rows IH]; simpl; [reflexivity|].
  destruct (String.eqb (user_id r) userId) eqn:E; simpl.
  - apply String.eqb_eq in E.
    assert (E' : String.eqb (user_id r) u = false).
    { apply String.eqb_neq. congruence. }
    rewrite E'. simpl. exact IH.
  - rewrite IH. reflexivity.
Qed.

(** X17.  [deleteWallet] without a session or a wallet, or with the
    question declined, changes nothing.  Otherwise it removes every lock of
    the user, active or claimed, and no lock of anyone else, and resets the
    component to no wallet, balance 0 and no locks; it makes no call to the
    vault program, so the vaults (whatever the user had deposited included),
    the admin wallet and the transfers are as before. *)
Theorem deleteWallet_effect :
  forall confirmed s c out s' c',
    deleteWallet confirmed s c = (out, s', c') ->
    vaults s' = vaults s /\
    adminBalance (registry s') = adminBalance (registry s) /\
    submitted (registry s') = submitted (registry s) /\
    (out <> Deleted -> s' = s /\ c' = c) /\
    (out = Deleted ->
     exists userId,
       session c = Some userId /\ myWallet c <> None /\ confirmed = true /\
       (forall l, In l (box_locks (registry s')) <->
                  In l (box_locks (registry s)) /\ user_id l <> userId) /\
       (forall u, u <> userId ->
                  active_locks_of u (box_locks (registry s')) =
                  active_locks_of u (box_locks (registry s))) /\
       session c' = session c /\ myWallet c' = None /\ balance c' = 0 /\
       activeLocks c' = []).
Proof.
  intros confirmed s c out s' c' H. unfold deleteWallet in H.
  destruct (session c) as [userId|] eqn:Hse.
  - destruct (myWallet c) as [owner|] eqn:Hwa.
    + destruct confirmed; cbn [negb] in H.
      * cbv zeta in H. injection H as <- <- <-. cbn [vaults registry adminBalance
          submitted box_locks session myWallet balance activeLocks].
        split; [reflexivity|]. split; [reflexivity|]. split; [reflexivity|].
        split; [intro Hne; exfalso; apply Hne; reflexivity|].
        intros _. exists userId. split; [reflexivity|].
        split; [discriminate|]. split; [reflexivity|].
        split.
        -- intro l. rewrite filter_In, negb_true_iff, String.eqb_neq. reflexivity.
        -- split; [|repeat split; exact Hse].
           intros u Hu. apply active_locks_of_after_delete. exact Hu.
      * injection H as <- <- <-. repeat split; try reflexivity. discriminate.
    + injection H as <- <- <-. repeat split; try reflexivity. discriminate.
  - injection H as <- <- <-. repeat split; try reflexivity. discriminate.
Qed.

(** Alice closes her account: her two locks are gone, bob's is kept, and
    her vault still holds its 2000 SOL. *)
Lemma deleteWallet_effect_witness :
  exists s' c',
    deleteWallet true shared_system shared_client = (Deleted, s', c') /\
    box_locks (registry s') = [bob_lock] /\
    vault_balance alice_key s' = 2000000000000 /\
    balance c' = 0.
Proof.
  eexists. eexists. split; [reflexivity|].
  destruct (deleteWallet_effect true shared_system shared_client Deleted _ _ eq_refl)
    as (Hv & _ & _ & _ & Hdel).
  destruct (Hdel eq_refl) as (u & _ & _ & _ & _ & _ & _ & _ & Hb & _).
  split; [reflexivity|]. split; [|exact Hb].
  unfold vault_balance. rewrite Hv. reflexivity.
Defined.

(** ** Whose lock it is *)

Lemma ids_unique_same_id :
  forall rows (l l' : LockRecord),
    NoDup (map id rows) -> In l rows -> In l' rows -> id l = id l' -> l = l'.
Proof.
  induction rows as [|r rows IH]; intros l l' Hnd Hl Hl' Hid; [contradiction|].
  inversion Hnd as [|x xs Hnotin Hnd' [Hx Hxs]].
  destruct Hl as [->|Hl], Hl' as [->|Hl'].
  - reflexivity.
  - exfalso. apply Hnotin. rewrite Hid. apply in_map. exact Hl'.
  - exfalso. apply Hnotin. rewrite <- Hid. apply in_map. exact Hl.
  - apply IH; assumption.
Qed.

Lemma POST_not_by_user :
  forall env body w n lock,
    ids_unique w ->
    nth_error (box_locks w) n = Some lock ->
    unlock_by (user_id lock) body = false ->
    nth_error (box_locks (snd (POST env body w))) n = Some lock.
Proof.
  intros env body w n lock Hw Hn Hby.
  destruct body as [userId a d|userId lockId addr force|].
  - destruct (POST_create_cases env userId a d w) as [H|(l & H & _)]; rewrite H;
      cbn [snd box_locks]; [exact Hn|].
    rewrite nth_error_app1; [exact Hn|]. apply nth_error_Some. congruence.
  - destruct (POST_unlock_cases env userId lockId addr force w)
      as [(e & w' & H & Hrows)|(reward & w' & H & Hrows)]; rewrite H;
      cbn [snd]; rewrite Hrows; [exact Hn|].
    rewrite nth_error_map, Hn. cbn [option_map].
    destruct (Nat.eqb (id lock) lockId) eqn:E; [|reflexivity].
    exfalso. apply Nat.eqb_eq in E.
    destruct (POST_unlock_success _ _ _ _ _ _ _ _ H) as (l0 & Hsel & _).
    assert (Hl0 : lock_of w userId lockId l0).
    { apply single_select_lock. rewrite Hsel. reflexivity. }
    destruct Hl0 as (Hin0 & Hid0 & Hu0). destruct Hw as (Hnd & _).
    assert (Heq : lock = l0).
    { apply (ids_unique_same_id (box_locks w)); try assumption.
      - eapply nth_error_In. exact Hn.
      - congruence. }
    subst l0. cbn [unlock_by] in Hby. rewrite Hu0, String.eqb_refl in Hby.
    discriminate.
  - exact Hn.
Qed.

(** X21.  Only requests in its user's name release a lock.  In a registry
    whose rows have ids of their own, a lock is left exactly as it is, status
    included, by every sequence of requests none of which is a release
    carrying its user's id: creating locks, releasing other ids and
    releases in other users' names under the same id never touch it. *)
Theorem only_owner_releases :
  forall requests w n lock,
    ids_unique w ->
    nth_error (box_locks w) n = Some lock ->
    no_unlock_by (user_id lock) requests = true ->
    nth_error (box_locks (serve requests w)) n = Some lock.
Proof.
  induction requests as [|[env body] rest IH]; intros w n lock Hw Hn Hno; simpl.
  - exact Hn.
  - unfold no_unlock_by in Hno. simpl in Hno. apply andb_true_iff in Hno.
    destruct Hno as (Hby & Hrest). apply negb_true_iff in Hby.
    apply IH.
    + apply POST_ids_unique. exact Hw.
    + apply POST_not_by_user; assumption.
    + exact Hrest.
Qed.

(** Bob's lock while alice releases hers, tries his id, and creates one. *)
Lemma only_owner_releases_witness :
  ids_unique shared_world /\
  nth_error (box_locks shared_world) 1 = Some bob_lock /\
  nth_error
    (box_locks
       (serve [(at_time 86400000, Unlock alice 0 alice_key false);
               (at_time 86400000, Unlock alice 1 alice_key true);
               (at_time 86400000, Create alice 5 1)] shared_world)) 1 =
  Some bob_lock.
Proof.
  assert (Hw : ids_unique shared_world).
  { split; cbn [shared_world box_locks next_id map].
    - repeat constructor; simpl; intuition discriminate.
    - repeat constructor. }
  assert (Hn : nth_error (box_locks shared_world) 1 = Some bob_lock) by reflexivity.
  split; [exact Hw|]. split; [exact Hn|].
  apply (only_owner_releases
           [(at_time 86400000, Unlock alice 0 alice_key false);
            (at_time 86400000, Unlock alice 1 alice_key true);
            (at_time 86400000, Create alice 5 1)] shared_world 1 bob_lock Hw Hn).
  reflexivity.
Defined.

(** ** The two handlers: creating *)


(** ** The address shown *)

Lemma length_append :
  forall s1 s2 : string,
    String.length (String.append s1 s2) = (String.length s1 + String.length s2)%nat.
Proof.
  induction s1 as [|c s1 IH]; intro s2; simpl; [reflexivity|].
  rewrite IH. reflexivity.
Qed.

Lemma substring_all : forall s : string, substring 0 (String.length s) s = s.
Proof.
  induction s as [|c s IH]; simpl; [reflexivity|]. rewrite IH. reflexivity.
Qed.

Lemma substring_split :
  forall (s : string) (n : nat),
    (n <= String.length s)%nat ->
    s = String.append (substring 0 n s) (substring n (String.length s - n) s).
Proof.
  induction s as [|c s IH]; intros n Hn.
  - simpl in Hn. assert (n = 0%nat) by lia. subst n. reflexivity.
  - destruct n as [|n].
    + cbn [String.length Nat.sub substring String.append].
      rewrite substring_all. reflexivity.
    + cbn [String.length Nat.sub substring String.append].
      simpl in Hn. rewrite <- (IH n) by lia. reflexivity.
Qed.

Lemma length_substring :
  forall (s : string) (n m : nat),
    (n + m <= String.length s)%nat -> String.length (substring n m s) = m.
Proof.
  induction s as [|c s IH]; intros n m H.
  - simpl in H. assert (n = 0%nat) by lia. assert (m = 0%nat) by lia.
    subst. reflexivity.
  - destruct n as [|n].
    + destruct m as [|m]; [reflexivity|].
      cbn [substring String.length]. rewrite IH; [reflexivity|].
      simpl in H. lia.
    + cbn [substring]. apply IH. simpl in H. lia.
Qed.

(** X23.  The address shown is the first eight and the last eight
    characters of the wallet's address around three dots, 19 characters in
    all, for every address of eight characters or more; nothing of the
    address between them is shown when it is longer than sixteen.  Without a
    wallet nothing is shown. *)
Theorem shortAddress_shape :
  forall addr : PublicKey,
    (8 <= String.length addr)%nat ->
    exists first last rest rest',
      addr = String.append first rest /\ addr = String.append rest' last /\
      String.length first = 8%nat /\ String.length last = 8%nat /\
      shortAddress (Some addr) = String.append first (String.append "..." last) /\
      String.length (shortAddress (Some addr)) = 19%nat /\
      shortAddress None = EmptyString.
Proof.
  intros addr Hlen.
  exists (substring 0 8 addr), (substring (String.length addr - 8) 8 addr),
         (substring 8 (String.length addr - 8) addr),
         (substring 0 (String.length addr - 8) addr).
  assert (H1 : String.length (substring 0 8 addr) = 8%nat)
    by (apply length_substring; lia).
  assert (H2 : String.length (substring (String.length addr - 8) 8 addr) = 8%nat)
    by (apply length_substring; lia).
  split; [apply substring_split; exact Hlen|].
  split.
  - pose proof (substring_split addr (String.length addr - 8) ltac:(lia)) as H.
    replace (String.length addr - (String.length addr - 8))%nat with 8%nat in H by lia.
    exact H.
  - split; [exact H1|]. split; [exact H2|]. split; [reflexivity|].
    split; [|reflexivity].
    unfold shortAddress. rewrite !length_append, H1, H2. reflexivity.
Qed.

(** A key of 20 characters. *)
Lemma shortAddress_shape_witness :
  (8 <= String.length alice_key)%nat /\
  shortAddress (Some alice_key) = "AliceWal...ublicKey"%string /\
  String.length (shortAddress (Some alice_key)) = 19%nat.
Proof.
  assert (Hlen : (8 <= String.length alice_key)%nat) by (simpl; lia).
  split; [exact Hlen|]. split; [reflexivity|].
  destruct (shortAddress_shape alice_key Hlen) as (f & l & r & r' & _ & _ & _ & _ & _ & H & _).
  exact H.
Defined.
